(** * Page objects of the DemoBlaze end-to-end suite, embedded in Rocq

    The page objects ([CartPage], [AuthenticationPage], [HomePage],
    [ContactPage]) are thin sequential scripts over a Playwright [Page].
    The embedding has three layers:

    - [JS]: the built-in string, array and number operations the scripts
      call ([trim], [includes], [replace] with a character class,
      [parseFloat], [findIndex], [some], [reduce]);
    - [Playwright]: a small model of the driver handle: a rendered page, a
      clock, a log of the actions sent to the browser, a one-shot dialog
      observer, and a state-and-exception monad in which every [await] of
      the source is one bind;
    - one module per page object, each method transcribed statement by
      statement.

    The remote shop is not part of the repository: its reaction to a click
    is a parameter [app] of every script that clicks. *)

From Stdlib Require Import String Ascii List ZArith Bool Lia Floats.
Import ListNotations.

Local Open Scope string_scope.

(* ================================================================== *)
(** * JavaScript built-ins *)
(* ================================================================== *)

Module JS.

(** Strings are sequences of code units; the model covers the code
    units below 256.  [WhiteSpace] and [LineTerminator] code units in
    that range, as used by [String.prototype.trim]: TAB, LF, VT, FF,
    CR, SP and NBSP. *)
Definition is_white_space (c : ascii) : bool :=
  let n := nat_of_ascii c in
  (((9 <=? n) && (n <=? 13)) || (n =? 32) || (n =? 160))%nat.

Fixpoint trimStart (s : string) : string :=
  match s with
  | EmptyString => EmptyString
  | String c s' => if is_white_space c then trimStart s' else s
  end.

Fixpoint trimEnd (s : string) : string :=
  match s with
  | EmptyString => EmptyString
  | String c s' =>
      match trimEnd s' with
      | EmptyString => if is_white_space c then EmptyString
                       else String c EmptyString
      | t => String c t
      end
  end.

Definition trim (s : string) : string := trimEnd (trimStart s).

(** [p] is an initial segment of [s]. *)
Fixpoint startsWith (s p : string) {struct p} : bool :=
  match p, s with
  | EmptyString, _ => true
  | String a p', String b s' => Ascii.eqb a b && startsWith s' p'
  | String _ _, EmptyString => false
  end.

(** [s.includes(sub)]: [sub] occurs in [s] at some position. *)
Fixpoint includes (s sub : string) : bool :=
  startsWith s sub ||
  match s with
  | EmptyString => false
  | String _ s' => includes s' sub
  end.

(** The one-character string holding a double quote. *)
Definition dquote : string := String (ascii_of_nat 34) EmptyString.

(** Truthiness of a string: only the empty string is falsy. *)
Definition truthy (s : string) : bool :=
  match s with EmptyString => false | _ => true end.

(** [x || ''] for [x : string | null]. *)
Definition or_empty (x : option string) : string :=
  match x with
  | Some s => if truthy s then s else EmptyString
  | None => EmptyString
  end.

(** [\d] *)
Definition is_digit (c : ascii) : bool :=
  let n := nat_of_ascii c in ((48 <=? n) && (n <=? 57))%nat.

(** The character class [[^\d.]]. *)
Definition not_digit_or_dot (c : ascii) : bool :=
  negb (is_digit c || Ascii.eqb c ".").

(** [s.replace(/cls/g, '')] for a one-character class [cls]: every
    matching character is replaced by the empty string. *)
Fixpoint replace_class_g (cls : ascii -> bool) (s : string) : string :=
  match s with
  | EmptyString => EmptyString
  | String c s' =>
      if cls c then replace_class_g cls s'
      else String c (replace_class_g cls s')
  end.

(** ** Numbers: IEEE 754 binary64 *)

Definition number := float.

Definition digit_val (c : ascii) : Z := Z.of_nat (nat_of_ascii c) - 48.

(** Longest run of decimal digits at the head of [s], accumulated on
    [acc]: the value read, the number of digits, and the rest. *)
Fixpoint scan_digits (s : string) (acc : Z) (n : nat) : Z * nat * string :=
  match s with
  | String c s' =>
      if is_digit c then scan_digits s' (10 * acc + digit_val c) (S n)
      else (acc, n, s)
  | EmptyString => (acc, n, s)
  end.

(** The binary64 value nearest to [(-1)^neg * num / den], ties to even. *)
Definition round_ratio (neg : bool) (num den : Z) : number :=
  match num, den with
  | Zpos n, Zpos d =>
      SF2Prim (SFdiv prec emax (S754_finite neg n 0) (S754_finite false d 0))
  | _, _ => SF2Prim (S754_zero neg)
  end.

(** An [ExponentPart], taken only when it is complete. *)
Definition scan_exponent (s : string) : Z :=
  match s with
  | String c s' =>
      if Ascii.eqb c "e" || Ascii.eqb c "E" then
        let '(neg, s'') :=
          match s' with
          | String "-" t => (true, t)
          | String "+" t => (false, t)
          | _ => (false, s')
          end in
        let '(v, n, _) := scan_digits s'' 0 0 in
        match n with
        | O => 0%Z
        | _ => if neg then (- v)%Z else v
        end
      else 0%Z
  | EmptyString => 0%Z
  end.

(** [parseFloat(s)]: skip leading white space, then read the longest
    prefix that is a [StrDecimalLiteral]; [NaN] when there is none. *)
Definition parseFloat (s : string) : number :=
  let s1 := trimStart s in
  let '(neg, s2) :=
    match s1 with
    | String "-" t => (true, t)
    | String "+" t => (false, t)
    | _ => (false, s1)
    end in
  if startsWith s2 "Infinity" then
    (if neg then neg_infinity else infinity)
  else
    let '(m1, n1, r1) := scan_digits s2 0 0 in
    let '(m2, n2, r2) :=
      match r1 with
      | String "." t => scan_digits t m1 0
      | _ => (m1, O, r1)
      end in
    match (n1 + n2)%nat with
    | O => nan
    | _ =>
        let e := (scan_exponent r2 - Z.of_nat n2)%Z in
        if (0 <=? e)%Z then round_ratio neg (m2 * 10 ^ e) 1
        else round_ratio neg m2 (10 ^ (- e))
    end.

(** [arr.findIndex(pred)]: the first index whose element satisfies
    [pred], or [-1]. *)
Fixpoint findIndex_from {A} (pred : A -> bool) (l : list A) (i : Z) : Z :=
  match l with
  | [] => (-1)%Z
  | x :: l' => if pred x then i else findIndex_from pred l' (i + 1)%Z
  end.

Definition findIndex {A} (pred : A -> bool) (l : list A) : Z :=
  findIndex_from pred l 0%Z.

(** [arr.some(pred)] *)
Definition some {A} (pred : A -> bool) (l : list A) : bool :=
  existsb pred l.

(** [arr.reduce(f, init)]: left to right. *)
Definition reduce {A B} (f : B -> A -> B) (l : list A) (init : B) : B :=
  fold_left f l init.

(** [s] without its first [n] code units. *)
Fixpoint drop (n : nat) (s : string) : string :=
  match n, s with
  | O, _ => s
  | S n', String _ s' => drop n' s'
  | S _, EmptyString => EmptyString
  end.

(** [s.replace(pat, '')] for a string pattern [pat]: the first
    occurrence of [pat], if any, is removed. *)
Fixpoint remove_first (s pat : string) : string :=
  if startsWith s pat then drop (String.length pat) s
  else
    match s with
    | EmptyString => EmptyString
    | String c s' => String c (remove_first s' pat)
    end.

End JS.

(* ================================================================== *)
(** * The driver handle *)
(* ================================================================== *)

Module Playwright.

(** A line feed or a carriage return. *)
Definition is_line_break (c : ascii) : bool :=
  Ascii.eqb c "010" || Ascii.eqb c "013".

(** A text without line breaks. *)
Fixpoint single_line (v : string) : bool :=
  match v with
  | EmptyString => true
  | String c v' => negb (is_line_break c) && single_line v'
  end.

(** What the scripts can observe of one DOM element.  A form control
    keeps a text without line breaks as it is typed; what it keeps of a
    text with line breaks depends on the control and on the browser (a
    single-line [input] drops them or puts spaces, a [textarea] keeps
    them with carriage returns normalised), so it is a part of the
    element. *)
Record Element := mkElement {
  el_visible : bool;            (* rendered with a non-empty box *)
  el_text : option string;      (* [textContent]: [string | null] *)
  el_value : string;            (* [inputValue] of a form control *)
  el_breaks : string -> string  (* what is kept of a text with line breaks *)
}.

(** The value a control holds after the text [v] was typed into it. *)
Definition kept (e : Element) (v : string) : string :=
  if single_line v then v else el_breaks e v.

(** One [tr] of the cart table [#tbodyid], with the cells the cart
    selectors address: [td:nth-child(2)], [td:nth-child(3)] and the
    link inside [td:nth-child(4)]; a cell may be missing. *)
Record Tr := mkTr {
  tr_row : Element;
  tr_name : option Element;
  tr_price : option Element;
  tr_delete : option Element
}.

(** The rendered page: the elements outside the cart table, keyed by
    the selector that addresses them (several entries under one key are
    several matches, in document order), and the rows of the table. *)
Record Page := mkPage {
  dom : list (string * Element);
  rows : list Tr
}.

Definition with_rows (p : Page) (rs : list Tr) : Page :=
  {| dom := dom p; rows := rs |}.

(** The cells selected by [f], in document order. *)
Fixpoint cells (f : Tr -> option Element) (rs : list Tr) : list Element :=
  match rs with
  | [] => []
  | r :: rs' =>
      match f r with
      | Some e => e :: cells f rs'
      | None => cells f rs'
      end
  end.

Definition lookup_all (sel : string) (d : list (string * Element))
  : list Element :=
  map snd (filter (fun kv => String.eqb (fst kv) sel) d).

Definition is_table_selector (sel : string) : bool :=
  String.eqb sel "#tbodyid tr"
  || String.eqb sel "#tbodyid tr td:nth-child(2)"
  || String.eqb sel "#tbodyid tr td:nth-child(3)"
  || String.eqb sel "#tbodyid tr td:nth-child(4) a".

(** All elements matching a selector, in document order. *)
Definition locate (sel : string) (p : Page) : list Element :=
  if String.eqb sel "#tbodyid tr" then map tr_row (rows p)
  else if String.eqb sel "#tbodyid tr td:nth-child(2)"
       then cells tr_name (rows p)
  else if String.eqb sel "#tbodyid tr td:nth-child(3)"
       then cells tr_price (rows p)
  else if String.eqb sel "#tbodyid tr td:nth-child(4) a"
       then cells tr_delete (rows p)
  else lookup_all sel (dom p).

(** [page.locator(sel)], [.nth(i)] and [.first()]. *)
Inductive Locator :=
| locator (sel : string)
| nth (sel : string) (i : nat).

Definition first (sel : string) : Locator := nth sel 0.

Definition selector_of (l : Locator) : string :=
  match l with locator sel => sel | nth sel _ => sel end.

Definition index_of (l : Locator) : nat :=
  match l with locator _ => 0 | nth _ i => i end.

(** Actions sent to the browser. *)
Inductive Action :=
| Click (sel : string) (k : nat)
| Fill (sel : string) (k : nat) (value : string).

(** The remote application: how the page reacts to a click on the
    [k]-th match of [sel], and the native dialog it raises, if any. *)
Definition App := string -> nat -> Page -> Page * option string.

Record World := mkWorld {
  page : Page;
  now : N;                      (* elapsed milliseconds *)
  log : list Action;            (* actions performed, oldest first *)
  armed : bool;                 (* a [once('dialog')] observer waits *)
  captured : option string      (* message the observer received *)
}.

Inductive Error :=
| TimeoutError (what : string)
| StrictModeViolation (sel : string)
| ExpectError (what : string)
| JsError (message : string).

Inductive Result (A : Type) :=
| Ok (a : A)
| Throw (e : Error).
Arguments Ok {A} a.
Arguments Throw {A} e.

(** An [async] computation: runs on a world, returns or throws, and
    leaves a world behind in both cases. *)
Definition M (A : Type) := World -> Result A * World.

Definition ret {A} (a : A) : M A := fun w => (Ok a, w).

Definition throw {A} (e : Error) : M A := fun w => (Throw e, w).

Definition bind {A B} (m : M A) (k : A -> M B) : M B :=
  fun w =>
    match m w with
    | (Ok a, w') => k a w'
    | (Throw e, w') => (Throw e, w')
    end.

(** [try { m } catch (e) { h e }] *)
Definition try_catch {A} (m : M A) (h : Error -> M A) : M A :=
  fun w =>
    match m w with
    | (Ok a, w') => (Ok a, w')
    | (Throw e, w') => h e w'
    end.

Declare Scope async_scope.
Delimit Scope async_scope with async.
Notation "x <- m ;; k" := (bind m (fun x => k))
  (at level 61, m at next level, right associativity) : async_scope.
Notation "m ;; k" := (bind m (fun _ => k))
  (at level 61, right associativity) : async_scope.
Local Open Scope async_scope.

(** Timeouts of [playwright.config.ts]. *)
Definition actionTimeout : N := 20000.
Definition expectTimeout : N := 15000.

Definition tick (ms : N) (w : World) : World :=
  {| page := page w; now := (now w + ms)%N; log := log w;
     armed := armed w; captured := captured w |}.

(** [page.waitForTimeout(ms)] *)
Definition waitForTimeout (ms : N) : M unit :=
  fun w => (Ok tt, tick ms w).

Definition is_visible (o : option Element) : bool :=
  match o with Some e => el_visible e | None => false end.

(** [page.waitForSelector(sel, { timeout })], state [visible]: the
    first match must be visible, otherwise the wait times out. *)
Definition waitForSelector (sel : string) (timeout : N) : M unit :=
  fun w =>
    if is_visible (hd_error (locate sel (page w))) then (Ok tt, w)
    else (Throw (TimeoutError sel), tick timeout w).

(** [locator.count()] *)
Definition count (sel : string) : M nat :=
  fun w => (Ok (length (locate sel (page w))), w).

(** The element a locator denotes: strict for a bare [locator(sel)]. *)
Definition resolve (l : Locator) (p : Page) : Result (option Element) :=
  match l with
  | locator sel =>
      match locate sel p with
      | [] => Ok None
      | [e] => Ok (Some e)
      | _ => Throw (StrictModeViolation sel)
      end
  | nth sel i => Ok (nth_error (locate sel p) i)
  end.

(** An operation that waits for its element to be attached. *)
Definition attached (l : Locator) : M Element :=
  fun w =>
    match resolve l (page w) with
    | Ok (Some e) => (Ok e, w)
    | Ok None => (Throw (TimeoutError (selector_of l)), tick actionTimeout w)
    | Throw e => (Throw e, w)
    end.

(** An operation that waits for its element to be visible. *)
Definition actionable (l : Locator) : M Element :=
  fun w =>
    match resolve l (page w) with
    | Ok (Some e) =>
        if el_visible e then (Ok e, w)
        else (Throw (TimeoutError (selector_of l)), tick actionTimeout w)
    | Ok None => (Throw (TimeoutError (selector_of l)), tick actionTimeout w)
    | Throw e => (Throw e, w)
    end.

(** [locator.textContent()] *)
Definition textContent (l : Locator) : M (option string) :=
  e <- attached l ;; ret (el_text e).

(** [locator.inputValue()] *)
Definition inputValue (l : Locator) : M string :=
  e <- attached l ;; ret (el_value e).

(** [expect(locator).toBeVisible({ timeout })] *)
Definition expect_toBeVisible (l : Locator) (timeout : N) : M unit :=
  fun w =>
    match resolve l (page w) with
    | Ok o =>
        if is_visible o then (Ok tt, w)
        else (Throw (ExpectError (selector_of l)), tick timeout w)
    | Throw e => (Throw e, w)
    end.

(** [expect(locator).toBeHidden()]: no match, or an invisible one. *)
Definition expect_toBeHidden (l : Locator) : M unit :=
  fun w =>
    match resolve l (page w) with
    | Ok o =>
        if is_visible o
        then (Throw (ExpectError (selector_of l)), tick expectTimeout w)
        else (Ok tt, w)
    | Throw e => (Throw e, w)
    end.

(** [page.once('dialog', d => { alertMessage = d.message(); d.accept() })]
    after [let alertMessage = '']. *)
Definition once_dialog : M unit :=
  fun w =>
    (Ok tt, {| page := page w; now := now w; log := log w;
               armed := true; captured := None |}).

(** The current value of [alertMessage]. *)
Definition alertMessage : M string :=
  fun w =>
    (Ok (match captured w with Some m => m | None => EmptyString end), w).

(** The browser performing an action the application reacts to: the
    action is logged, the page becomes what the application renders,
    and a dialog, if raised, goes to the armed observer, which then
    is spent. *)
Definition perform (app : App) (sel : string) (k : nat) (w : World)
  : World :=
  let '(p', dialog) := app sel k (page w) in
  match dialog, armed w with
  | Some m, true =>
      {| page := p'; now := now w; log := log w ++ [Click sel k];
         armed := false; captured := Some m |}
  | _, _ =>
      {| page := p'; now := now w; log := log w ++ [Click sel k];
         armed := armed w; captured := captured w |}
  end.

(** [locator.click()] *)
Definition click (app : App) (l : Locator) : M unit :=
  fun w =>
    match actionable l w with
    | (Ok _, w') => (Ok tt, perform app (selector_of l) (index_of l) w')
    | (Throw e, w') => (Throw e, w')
    end.

(** The [k]-th entry under key [sel] receives the text [v]. *)
Fixpoint set_value (sel : string) (k : nat) (v : string)
  (d : list (string * Element)) : list (string * Element) :=
  match d with
  | [] => []
  | (key, e) :: d' =>
      if String.eqb key sel then
        match k with
        | O => (key, {| el_visible := el_visible e; el_text := el_text e;
                        el_value := kept e v;
                        el_breaks := el_breaks e |}) :: d'
        | S k' => (key, e) :: set_value sel k' v d'
        end
      else (key, e) :: set_value sel k v d'
  end.

(** [locator.fill(v)]: the text is typed into the control, which holds
    afterwards what it keeps of it; the cells of the cart table are not
    inputs. *)
Definition fill (l : Locator) (v : string) : M unit :=
  fun w =>
    match actionable l w with
    | (Ok _, w') =>
        if is_table_selector (selector_of l) then
          (Throw (JsError "Element is not an <input>"), w')
        else
          (Ok tt,
           {| page := {| dom := set_value (selector_of l) (index_of l) v
                                  (dom (page w'));
                         rows := rows (page w') |};
              now := now w';
              log := log w' ++ [Fill (selector_of l) (index_of l) v];
              armed := armed w'; captured := captured w' |})
    | (Throw e, w') => (Throw e, w')
    end.

(** [for (let i = start; i < start + n; i++) { s = body(i, s) }] *)
Fixpoint for_loop {T} (n : nat) (i : nat) (body : nat -> T -> M T) (s : T)
  : M T :=
  match n with
  | O => ret s
  | S n' => s' <- body i s ;; for_loop n' (S i) body s'
  end.

(** [locator.clear()]: fills the empty string. *)
Definition clear (l : Locator) : M unit := fill l EmptyString.

(** [expect(actual).toContain(expected)] on strings; it does not wait. *)
Definition expect_toContain (actual expected : string) : M unit :=
  fun w =>
    if JS.includes actual expected then (Ok tt, w)
    else (Throw (ExpectError expected), w).

End Playwright.

Import Playwright.
Local Open Scope async_scope.

(* ================================================================== *)
(** * CartPage *)
(* ================================================================== *)

Module CartPage.

Record CartItem := mkCartItem {
  name : string;
  price : string
}.

Definition cartItems := "#tbodyid tr".
Definition cartItemNames := "#tbodyid tr td:nth-child(2)".
Definition cartItemPrices := "#tbodyid tr td:nth-child(3)".
Definition deleteButtons := "#tbodyid tr td:nth-child(4) a".
Definition totalPrice := "#totalp".

Definition getCartItems : M (list CartItem) :=
  waitForSelector "#tbodyid" 10000 ;;
  waitForTimeout 3000 ;;
  count_ <- count cartItems ;;
  for_loop count_ 0
    (fun i items =>
       name_ <- (t <- textContent (nth cartItemNames i) ;;
                 ret (JS.or_empty t)) ;;
       price_ <- (t <- textContent (nth cartItemPrices i) ;;
                  ret (JS.or_empty t)) ;;
       ret (items ++ [ {| name := JS.trim name_;
                          price := JS.trim price_ |} ])%list)
    [].

(** [!firstItemText || firstItemText.trim() === ''] *)
Definition no_text (firstItemText : option string) : bool :=
  match firstItemText with
  | None => true
  | Some t => negb (JS.truthy t) || String.eqb (JS.trim t) EmptyString
  end.

Definition getCartItemCount : M nat :=
  try_catch
    (waitForSelector "#page-wrapper" 5000 ;;
     waitForTimeout 3000 ;;
     items <- count cartItems ;;
     if Nat.eqb items 0 then ret 0
     else
       firstItemText <- textContent (first cartItems) ;;
       ret (if Nat.eqb items 1 && no_text firstItemText then 0 else items))
    (fun error => ret 0).

Definition getTotalPrice : M string :=
  expect_toBeVisible (locator totalPrice) expectTimeout ;;
  t <- textContent (locator totalPrice) ;;
  ret (JS.or_empty t).

(** The template literal [`Item "${itemName}" not found in cart`]. *)
Definition not_found_message (itemName : string) : string :=
  "Item " ++ JS.dquote ++ itemName ++ JS.dquote ++ " not found in cart".

Section Actions.

Variable app : App.

Definition removeItemByName (itemName : string) : M unit :=
  items <- getCartItems ;;
  let itemIndex :=
    JS.findIndex (fun item => String.eqb (name item) itemName) items in
  if (0 <=? itemIndex)%Z then
    click app (nth deleteButtons (Z.to_nat itemIndex)) ;;
    waitForTimeout 1000
  else
    throw (JsError (not_found_message itemName)).

(** One turn of the [while] body: delete the first row, sleep,
    re-read the count. *)
Definition removeAllItems_body : M nat :=
  click app (first deleteButtons) ;;
  waitForTimeout 1000 ;;
  getCartItemCount.

(** [while (itemCount > 0) { ... }]: [None] when [fuel] turns of the
    loop were not enough to leave it. *)
Fixpoint removeAllItems_while (fuel : nat) (itemCount : nat) (w : World)
  : option (Result unit * World) :=
  if Nat.ltb 0 itemCount then
    match fuel with
    | O => None
    | S fuel' =>
        match removeAllItems_body w with
        | (Ok itemCount', w') => removeAllItems_while fuel' itemCount' w'
        | (Throw e, w') => Some (Throw e, w')
        end
    end
  else Some (Ok tt, w).

Definition removeAllItems (fuel : nat) (w : World)
  : option (Result unit * World) :=
  match getCartItemCount w with
  | (Ok itemCount, w') => removeAllItems_while fuel itemCount w'
  | (Throw e, w') => Some (Throw e, w')
  end.

End Actions.

Definition isCartEmpty : M bool :=
  n <- getCartItemCount ;; ret (Nat.eqb n 0).

Definition verifyItemInCart (itemName : string) : M bool :=
  items <- getCartItems ;;
  ret (JS.some (fun item => JS.includes (name item) itemName) items).

(** [parseFloat(s.replace(/[^\d.]/g, ''))] *)
Definition parse_price (s : string) : JS.number :=
  JS.parseFloat (JS.replace_class_g JS.not_digit_or_dot s).

Definition calculateExpectedTotal : M JS.number :=
  items <- getCartItems ;;
  ret (JS.reduce
         (fun total item =>
            let price := parse_price (price item) in
            (total + price)%float)
         items 0%float).

(** The literal [0.01]: the binary64 value nearest to one hundredth. *)
Definition tolerance : JS.number := 0x1.47ae147ae147bp-7%float.

Definition verifyTotalPrice : M bool :=
  expectedTotal <- calculateExpectedTotal ;;
  actualTotal <- (t <- getTotalPrice ;; ret (parse_price t)) ;;
  ret (PrimFloat.ltb (PrimFloat.abs (expectedTotal - actualTotal)%float)
         tolerance).

Definition nameInput := "#name".
Definition countryInput := "#country".
Definition cityInput := "#city".
Definition creditCardInput := "#card".
Definition monthInput := "#month".
Definition yearInput := "#year".

Record OrderDetails := mkOrderDetails {
  order_name : string;
  country : string;
  city : string;
  creditCard : string;
  month : string;
  year : string
}.

Definition fillOrderForm (orderDetails : OrderDetails) : M unit :=
  expect_toBeVisible (locator nameInput) expectTimeout ;;
  fill (locator nameInput) (order_name orderDetails) ;;
  fill (locator countryInput) (country orderDetails) ;;
  fill (locator cityInput) (city orderDetails) ;;
  fill (locator creditCardInput) (creditCard orderDetails) ;;
  fill (locator monthInput) (month orderDetails) ;;
  fill (locator yearInput) (year orderDetails).

End CartPage.

(* ================================================================== *)
(** * AuthenticationPage *)
(* ================================================================== *)

Module AuthenticationPage.

Definition loginModal := "#logInModal".
Definition signUpModal := "#signInModal".
Definition signUpUsernameInput := "#sign-username".
Definition signUpPasswordInput := "#sign-password".
Definition signUpButton :=
  "button[onclick=" ++ JS.dquote ++ "register()" ++ JS.dquote ++ "]".
Definition welcomeMessage := "#nameofuser".
Definition logoutButton := "#logout2".
Definition loginLink := "#login2".

Definition waitForSignUpModal : M unit :=
  expect_toBeVisible (locator signUpModal) expectTimeout ;;
  expect_toBeVisible (locator signUpUsernameInput) expectTimeout.

Section Actions.

Variable app : App.

Definition signUp (username password : string) : M bool :=
  waitForSignUpModal ;;
  fill (locator signUpUsernameInput) username ;;
  fill (locator signUpPasswordInput) password ;;
  once_dialog ;;
  click app (locator signUpButton) ;;
  waitForTimeout 2000 ;;
  message <- alertMessage ;;
  let isSuccess := JS.includes message "Sign up successful" in
  (if isSuccess then expect_toBeHidden (locator signUpModal)
   else ret tt) ;;
  ret isSuccess.

Definition attemptSignUpWithExistingUser (username password : string)
  : M string :=
  waitForSignUpModal ;;
  fill (locator signUpUsernameInput) username ;;
  fill (locator signUpPasswordInput) password ;;
  once_dialog ;;
  click app (locator signUpButton) ;;
  waitForTimeout 2000 ;;
  alertMessage.

Definition logout : M unit :=
  expect_toBeVisible (locator logoutButton) expectTimeout ;;
  click app (locator logoutButton) ;;
  expect_toBeHidden (locator welcomeMessage) ;;
  expect_toBeVisible (locator loginLink) expectTimeout.

End Actions.

Definition isLoggedIn : M bool :=
  try_catch
    (expect_toBeVisible (locator welcomeMessage) 2000 ;; ret true)
    (fun _ => ret false).

Definition loginUsernameInput := "#loginusername".
Definition loginPasswordInput := "#loginpassword".
Definition loginButton :=
  "button[onclick=" ++ JS.dquote ++ "logIn()" ++ JS.dquote ++ "]".

Definition waitForLoginModal : M unit :=
  expect_toBeVisible (locator loginModal) expectTimeout ;;
  expect_toBeVisible (locator loginUsernameInput) expectTimeout.

Section Login.

Variable app : App.

Definition login (username password : string) : M unit :=
  waitForLoginModal ;;
  fill (locator loginUsernameInput) username ;;
  fill (locator loginPasswordInput) password ;;
  click app (locator loginButton) ;;
  expect_toBeHidden (locator loginModal) ;;
  try_catch
    (expect_toBeVisible (locator welcomeMessage) 5000)
    (fun _ => ret tt).

Definition attemptLoginWithInvalidCredentials (username password : string)
  : M string :=
  waitForLoginModal ;;
  fill (locator loginUsernameInput) username ;;
  fill (locator loginPasswordInput) password ;;
  once_dialog ;;
  click app (locator loginButton) ;;
  waitForTimeout 2000 ;;
  alertMessage.

End Login.

Definition getWelcomeMessage : M string :=
  loggedIn <- isLoggedIn ;;
  if loggedIn then
    t <- textContent (locator welcomeMessage) ;;
    ret (JS.or_empty t)
  else ret EmptyString.

Definition getLoggedInUsername : M string :=
  welcomeText <- getWelcomeMessage ;;
  ret (JS.trim (JS.remove_first welcomeText "Welcome ")).

Definition verifyLoginSuccess (expectedUsername : string) : M unit :=
  expect_toBeVisible (locator welcomeMessage) expectTimeout ;;
  welcomeText <- getWelcomeMessage ;;
  expect_toContain welcomeText expectedUsername ;;
  expect_toBeVisible (locator logoutButton) expectTimeout.

Definition verifyLoggedOut : M unit :=
  expect_toBeHidden (locator welcomeMessage) ;;
  expect_toBeHidden (locator logoutButton) ;;
  expect_toBeVisible (locator loginLink) expectTimeout.

End AuthenticationPage.

(* ================================================================== *)
(** * HomePage *)
(* ================================================================== *)

Module HomePage.

Definition loginLink := "a#login2".
Definition logoutLink := "a#logout2".

Definition isUserLoggedIn : M bool :=
  try_catch
    (waitForSelector logoutLink 2000 ;; ret true)
    (fun _ => ret false).

Section Actions.

Variable app : App.

Definition logout : M unit :=
  loggedIn <- isUserLoggedIn ;;
  if loggedIn then
    click app (locator logoutLink) ;;
    waitForSelector loginLink actionTimeout
  else ret tt.

End Actions.

Definition phonesCategory := "a[onclick*=" ++ JS.dquote ++ "phone"
                              ++ JS.dquote ++ "]".
Definition laptopsCategory := "a[onclick*=" ++ JS.dquote ++ "notebook"
                               ++ JS.dquote ++ "]".
Definition monitorsCategory := "a[onclick*=" ++ JS.dquote ++ "monitor"
                                ++ JS.dquote ++ "]".
Definition productCards := ".card".

(** The template literal [`Invalid category: ${category}`]. *)
Definition invalid_category_message (category : string) : string :=
  "Invalid category: " ++ category.

Section Filtering.

Variable app : App.

(** The parameter is a string at run time; the [switch] compares it
    with the three category names. *)
Definition selectProductCategory (category : string) : M unit :=
  (if String.eqb category "Phones" then
     click app (locator phonesCategory)
   else if String.eqb category "Laptops" then
     click app (locator laptopsCategory)
   else if String.eqb category "Monitors" then
     click app (locator monitorsCategory)
   else
     throw (JsError (invalid_category_message category))) ;;
  waitForSelector productCards 5000.

Definition filterByCategory (category : string) : M unit :=
  selectProductCategory category.

End Filtering.

End HomePage.

(* ================================================================== *)
(** * ContactPage *)
(* ================================================================== *)

Module ContactPage.

Definition emailInput := "#recipient-email".
Definition nameInput := "#recipient-name".
Definition messageInput := "#message-text".

Record Validation := mkValidation {
  isValid : bool;
  errors : list string
}.

(** [if (cond) { errors.push(msg); isValid = false; }] on the two
    mutable locals. *)
Definition check (cond : bool) (msg : string) (st : list string * bool)
  : list string * bool :=
  if cond then (fst st ++ [msg], false)%list else st.

Definition verifyFormValidation : M Validation :=
  let st := ([], true) in
  email <- inputValue (locator emailInput) ;;
  name <- inputValue (locator nameInput) ;;
  message <- inputValue (locator messageInput) ;;
  let st := check (negb (JS.truthy email)) "Email is required" st in
  let st := check (negb (JS.truthy name)) "Name is required" st in
  let st := check (negb (JS.truthy message)) "Message is required" st in
  let st := check (JS.truthy email && negb (JS.includes email "@"))
                  "Invalid email format" st in
  ret {| isValid := snd st; errors := fst st |}.

Record ContactFormData := mkContactFormData {
  email : string;
  name : string;
  message : string
}.

(** [Partial<ContactFormData>]: every field may be missing. *)
Record PartialContactFormData := mkPartialContactFormData {
  email_opt : option string;
  name_opt : option string;
  message_opt : option string
}.

Definition contactModal := "#exampleModal".
Definition sendMessageButton :=
  "button[onclick=" ++ JS.dquote ++ "send()" ++ JS.dquote ++ "]".

Definition waitForContactModal : M unit :=
  expect_toBeVisible (locator contactModal) expectTimeout ;;
  expect_toBeVisible (locator emailInput) expectTimeout.

Definition fillContactForm (formData : ContactFormData) : M unit :=
  waitForContactModal ;;
  fill (locator emailInput) (email formData) ;;
  fill (locator nameInput) (name formData) ;;
  fill (locator messageInput) (message formData).

Definition clearForm : M unit :=
  clear (locator emailInput) ;;
  clear (locator nameInput) ;;
  clear (locator messageInput).

Definition getFormData : M ContactFormData :=
  email_ <- inputValue (locator emailInput) ;;
  name_ <- inputValue (locator nameInput) ;;
  message_ <- inputValue (locator messageInput) ;;
  ret {| email := email_; name := name_; message := message_ |}.

Definition isFormEmpty : M bool :=
  formData <- getFormData ;;
  ret (negb (JS.truthy (email formData))
       && negb (JS.truthy (name formData))
       && negb (JS.truthy (message formData))).

(** [if (field) await locator.fill(field)] for an optional field. *)
Definition fill_if_given (sel : string) (field : option string) : M unit :=
  match field with
  | Some v => if JS.truthy v then fill (locator sel) v else ret tt
  | None => ret tt
  end.

Section Sending.

Variable app : App.

Definition sendMessage (formData : ContactFormData) : M string :=
  fillContactForm formData ;;
  once_dialog ;;
  click app (locator sendMessageButton) ;;
  waitForTimeout 2000 ;;
  alertMessage.

Definition sendEmptyForm : M string :=
  waitForContactModal ;;
  clearForm ;;
  once_dialog ;;
  click app (locator sendMessageButton) ;;
  waitForTimeout 2000 ;;
  alertMessage.

Definition sendPartialForm (formData : PartialContactFormData) : M string :=
  waitForContactModal ;;
  clearForm ;;
  fill_if_given emailInput (email_opt formData) ;;
  fill_if_given nameInput (name_opt formData) ;;
  fill_if_given messageInput (message_opt formData) ;;
  once_dialog ;;
  click app (locator sendMessageButton) ;;
  waitForTimeout 2000 ;;
  alertMessage.

End Sending.

End ContactPage.

(* ================================================================== *)
(** * ProductPage *)
(* ================================================================== *)

Module ProductPage.

Definition productTitle := ".name".
Definition productPrice := ".price-container".
Definition productDescription := "#more-information p".

Record ProductDetails := mkProductDetails {
  title : string;
  price : string;
  description : string
}.

Definition getProductTitle : M string :=
  expect_toBeVisible (locator productTitle) expectTimeout ;;
  t <- textContent (locator productTitle) ;;
  ret (JS.or_empty t).

Definition getProductPrice : M string :=
  expect_toBeVisible (locator productPrice) expectTimeout ;;
  priceText <- (t <- textContent (locator productPrice) ;;
                ret (JS.or_empty t)) ;;
  ret (JS.trim (JS.remove_first priceText "*includes tax")).

Definition getProductDescription : M string :=
  expect_toBeVisible (locator productDescription) expectTimeout ;;
  t <- textContent (locator productDescription) ;;
  ret (JS.or_empty t).

Definition getProductDetails : M ProductDetails :=
  title_ <- getProductTitle ;;
  price_ <- getProductPrice ;;
  description_ <- getProductDescription ;;
  ret {| title := title_; price := price_; description := description_ |}.

End ProductPage.

(* ================================================================== *)
(** * The suite: session clean-up after each test *)
(* ================================================================== *)

Module Suite.

Section Hooks.

Variable app : App.

(** The [try] block that closes [test.afterEach]: log out if a user is
    logged in, and swallow whatever goes wrong. *)
Definition afterEach_logout : M unit :=
  try_catch
    (loggedIn <- AuthenticationPage.isLoggedIn ;;
     if loggedIn then AuthenticationPage.logout app else ret tt)
    (fun error => ret tt).

End Hooks.

End Suite.

(* ================================================================== *)
(** * Vocabulary of the properties *)
(* ================================================================== *)

(** Every code unit of [s] is white space. *)
Fixpoint blank (s : string) : bool :=
  match s with
  | EmptyString => true
  | String c s' => JS.is_white_space c && blank s'
  end.

(** A row text that is absent, empty or white space only. *)
Definition blank_text (t : option string) : bool :=
  match t with
  | None => true
  | Some s => blank s
  end.

(** [m] only observes: its outcome is the function [f] of the rendered
    page, and it leaves the world as it found it but for the time that
    passed. *)
Definition observes {A} (m : M A) (f : Page -> Result A) : Prop :=
  forall w, exists dt, m w = (f (page w), tick dt w).

(** The first match of [sel] is visible on [p]. *)
Definition shows (p : Page) (sel : string) : bool :=
  is_visible (hd_error (locate sel p)).

(** A world freshly opened on a page. *)
Definition opened (p : Page) : World :=
  {| page := p; now := 0; log := []; armed := false; captured := None |}.

(** The text a row contributes to a cart line: [textContent() || '']. *)
Definition cell_text (c : option Element) : string :=
  match c with
  | Some e => JS.or_empty (el_text e)
  | None => EmptyString
  end.

(** The cart line read off a row. *)
Definition line_of (r : Tr) : CartPage.CartItem :=
  {| CartPage.name := JS.trim (cell_text (tr_name r));
     CartPage.price := JS.trim (cell_text (tr_price r)) |}.

(** A row with a name cell, a price cell and a visible delete link. *)
Definition complete (r : Tr) : bool :=
  match tr_name r, tr_price r with
  | Some _, Some _ => is_visible (tr_delete r)
  | _, _ => false
  end.

(** [l] without its [k]-th element. *)
Definition remove_nth {A} (k : nat) (l : list A) : list A :=
  firstn k l ++ skipn (S k) l.

(** The rows without the one that owns the [k]-th delete link. *)
Fixpoint remove_owner (k : nat) (rs : list Tr) : list Tr :=
  match rs with
  | [] => []
  | r :: rs' =>
      match tr_delete r, k with
      | Some _, O => rs'
      | Some _, S k' => r :: remove_owner k' rs'
      | None, _ => r :: remove_owner k rs'
      end
  end.

(** An application that answers a click on a delete link by rendering the
    cart without the row of that link, with no dialog. *)
Definition deletes_rows (app : App) : Prop :=
  forall k p,
    app CartPage.deleteButtons k p
    = (with_rows p (remove_owner k (rows p)), None).

(** The count [getCartItemCount] reports on a rendered cart page. *)
Definition item_count (p : Page) : nat :=
  match rows p with
  | [r] => if blank_text (el_text (tr_row r)) then 0 else 1
  | rs => length rs
  end.

(** The running total of a list of numbers, from zero, left to right. *)
Fixpoint running_sum (acc : JS.number) (xs : list JS.number) : JS.number :=
  match xs with
  | [] => acc
  | x :: xs' => running_sum (acc + x)%float xs'
  end.

(** The characters of [s] that are a digit or a dot, in order. *)
Fixpoint digits_and_dots (s : string) : string :=
  match s with
  | EmptyString => EmptyString
  | String c s' =>
      if JS.is_digit c || Ascii.eqb c "." then String c (digits_and_dots s')
      else digits_and_dots s'
  end.

(** The sum, over all lines, of the price parsed after stripping. *)
Definition sum_of_prices (items : list CartPage.CartItem) : JS.number :=
  running_sum 0%float
    (map (fun it => JS.parseFloat (digits_and_dots (CartPage.price it))) items).

(** A bare [locator(sel)] denotes one element, and it is visible. *)
Definition uniquely_shows (p : Page) (sel : string) : bool :=
  match locate sel p with
  | [e] => el_visible e
  | _ => false
  end.

(** The rules of the contact form that a form state violates, in the
    order they are checked. *)
Definition violated_rules (email name message : string) : list string :=
  (if String.eqb email EmptyString then ["Email is required"] else []) ++
  (if String.eqb name EmptyString then ["Name is required"] else []) ++
  (if String.eqb message EmptyString then ["Message is required"] else []) ++
  (if negb (String.eqb email EmptyString) && negb (JS.includes email "@")
   then ["Invalid email format"] else []).

(** [k] is the first index of [l] whose element satisfies [pred]. *)
Definition first_match {A} (pred : A -> bool) (l : list A) (k : nat) : Prop :=
  (exists x, nth_error l k = Some x /\ pred x = true) /\
  forall j y, j < k -> nth_error l j = Some y -> pred y = false.

(** The steps [signUp] and [attemptSignUpWithExistingUser] share before
    the click: wait for the modal, fill both fields, arm the observer. *)
Definition fillSignUpForm (username password : string) : M unit :=
  (AuthenticationPage.waitForSignUpModal ;;
   fill (locator AuthenticationPage.signUpUsernameInput) username ;;
   fill (locator AuthenticationPage.signUpPasswordInput) password ;;
   once_dialog)%async.

(** [expect(locator(sel)).toBeHidden()] passes on [p]. *)
Definition hidden_or_absent (p : Page) (sel : string) : bool :=
  match resolve (locator sel) p with
  | Ok o => negb (is_visible o)
  | Throw _ => false
  end.

(** A row with a visible delete link. *)
Definition deletable (r : Tr) : bool := is_visible (tr_delete r).

(** A row whose own text is not blank. *)
Definition has_text (r : Tr) : bool := negb (blank_text (el_text (tr_row r))).

(** A cart page as the shop renders it: wrapper and table body visible,
    every row complete and with some text. *)
Definition well_rendered (p : Page) : bool :=
  shows p "#page-wrapper" && shows p "#tbodyid"
  && forallb complete (rows p) && forallb has_text (rows p).

(** The message a dialog event carries to [alertMessage]. *)
Definition dialog_text (d : option string) : string :=
  match d with
  | Some m => m
  | None => EmptyString
  end.

(** ** A reference shop and sample pages *)

Module Shop.

Definition shown (text : string) : Element :=
  {| el_visible := true; el_text := Some text; el_value := EmptyString;
     el_breaks := fun v => v |}.

Definition hidden (text : string) : Element :=
  {| el_visible := false; el_text := Some text; el_value := EmptyString;
     el_breaks := fun v => v |}.

(** A space for every line break. *)
Fixpoint spaced (v : string) : string :=
  match v with
  | EmptyString => EmptyString
  | String c v' => String (if is_line_break c then " "%char else c) (spaced v')
  end.

(** A single-line input, which puts a space for every line break. *)
Definition input (value : string) : Element :=
  {| el_visible := true; el_text := Some EmptyString; el_value := value;
     el_breaks := spaced |}.

(** A multi-line input, which keeps line breaks. *)
Definition textarea (value : string) : Element :=
  {| el_visible := true; el_text := Some EmptyString; el_value := value;
     el_breaks := fun v => v |}.

(** A cart row as the shop renders it: picture, title, price, link. *)
Definition cart_row (title price : string) : Tr :=
  {| tr_row := shown (title ++ price ++ "Delete");
     tr_name := Some (shown title);
     tr_price := Some (shown price);
     tr_delete := Some (shown "Delete") |}.

(** An empty placeholder row. *)
Definition placeholder_row : Tr :=
  {| tr_row := shown "  "; tr_name := None; tr_price := None;
     tr_delete := None |}.

Definition cart_page (total : string) (rs : list Tr) : Page :=
  {| dom := [ ("#page-wrapper", shown EmptyString);
              ("#tbodyid", shown EmptyString);
              ("#totalp", shown total) ];
     rows := rs |}.

Fixpoint set_visible (sel : string) (b : bool)
  (d : list (string * Element)) : list (string * Element) :=
  match d with
  | [] => []
  | (key, e) :: d' =>
      (key, if String.eqb key sel
            then {| el_visible := b; el_text := el_text e;
                    el_value := el_value e; el_breaks := el_breaks e |}
            else e) :: set_visible sel b d'
  end.

Definition value_of (sel : string) (p : Page) : string :=
  match lookup_all sel (dom p) with
  | e :: _ => el_value e
  | [] => EmptyString
  end.

(** The shop: a delete link removes its row; the register button
    answers with a dialog, and on success closes the modal; the logout
    link ends the session. *)
Definition shop (taken : list string) : App :=
  fun sel k p =>
    if String.eqb sel CartPage.deleteButtons then
      (with_rows p (remove_owner k (rows p)), None)
    else if String.eqb sel AuthenticationPage.signUpButton then
      let user := value_of AuthenticationPage.signUpUsernameInput p in
      if existsb (String.eqb user) taken then
        (p, Some "This user already exist.")
      else
        ({| dom := set_visible AuthenticationPage.signUpModal false (dom p);
            rows := rows p |},
         Some "Sign up successful.")
    else if String.eqb sel AuthenticationPage.logoutButton
            || String.eqb sel HomePage.logoutLink then
      ({| dom := set_visible AuthenticationPage.loginLink true
                   (set_visible HomePage.loginLink true
                      (set_visible AuthenticationPage.logoutButton false
                         (set_visible HomePage.logoutLink false
                            (set_visible AuthenticationPage.welcomeMessage
                               false (dom p)))));
          rows := rows p |},
       None)
    else (p, None).

(** An application on which nothing has any effect. *)
Definition frozen : App := fun _ _ p => (p, None).

(** A cart holding one phone. *)
Definition one_row_cart : Page :=
  cart_page "360" [cart_row "Samsung galaxy s6" "360"].

(** A cart holding a laptop and a phone. *)
Definition two_row_cart : Page :=
  cart_page "1150" [cart_row "Sony vaio i5" "790";
                    cart_row "Samsung galaxy s6" "360"].


Definition signup_page : Page :=
  {| dom := [ (AuthenticationPage.signUpModal, shown EmptyString);
              (AuthenticationPage.signUpUsernameInput, input EmptyString);
              (AuthenticationPage.signUpPasswordInput, input EmptyString);
              (AuthenticationPage.signUpButton, shown "Sign up") ];
     rows := [] |}.

Definition logged_out_page : Page :=
  {| dom := [ (AuthenticationPage.loginLink, shown "Log in");
              (HomePage.loginLink, shown "Log in");
              (AuthenticationPage.logoutButton, hidden "Log out");
              (HomePage.logoutLink, hidden "Log out");
              (AuthenticationPage.welcomeMessage, hidden EmptyString) ];
     rows := [] |}.

Definition logged_in_page : Page :=
  {| dom := [ (AuthenticationPage.loginLink, hidden "Log in");
              (HomePage.loginLink, hidden "Log in");
              (AuthenticationPage.logoutButton, shown "Log out");
              (HomePage.logoutLink, shown "Log out");
              (AuthenticationPage.welcomeMessage, shown "Welcome sathish") ];
     rows := [] |}.

Definition contact_page (email name message : string) : Page :=
  {| dom := [ (ContactPage.emailInput, input email);
              (ContactPage.nameInput, input name);
              (ContactPage.messageInput, input message) ];
     rows := [] |}.

End Shop.

(* ================================================================== *)
(** * Vocabulary of the further properties *)
(* ================================================================== *)

(** The page after the first match of [sel] received the value [v]. *)
Definition with_value (p : Page) (sel v : string) : Page :=
  {| dom := set_value sel 0 v (dom p); rows := rows p |}.

(** The world after a successful [fill] of [sel] with [v]. *)
Definition filled (w : World) (sel v : string) : World :=
  {| page := with_value (page w) sel v; now := now w;
     log := log w ++ [Fill sel 0 v];
     armed := armed w; captured := captured w |}.

(** The value of the one form control that [sel] denotes. *)
Definition input_value (p : Page) (sel : string) : option string :=
  match locate sel p with
  | [e] => Some (el_value e)
  | _ => None
  end.

(** The text of the one element that [sel] denotes, as
    [textContent() || ''] reads it; empty when there is no such element. *)
Definition text_of (p : Page) (sel : string) : string :=
  match locate sel p with
  | [e] => JS.or_empty (el_text e)
  | _ => EmptyString
  end.

(** The contact modal is open with its three inputs on display. *)
Definition contact_form_ready (p : Page) : bool :=
  uniquely_shows p ContactPage.contactModal
  && uniquely_shows p ContactPage.emailInput
  && uniquely_shows p ContactPage.nameInput
  && uniquely_shows p ContactPage.messageInput.

(** The contact form holding the data [d]. *)
Definition contact_form_with (p : Page) (d : ContactPage.ContactFormData)
  : Page :=
  with_value
    (with_value
       (with_value p ContactPage.emailInput (ContactPage.email d))
       ContactPage.nameInput (ContactPage.name d))
    ContactPage.messageInput (ContactPage.message d).

(** The world after the three inputs of the contact form were filled
    with the data [d], in the order email, name, message. *)
Definition contact_filled (w : World) (d : ContactPage.ContactFormData)
  : World :=
  filled (filled (filled w ContactPage.emailInput (ContactPage.email d))
            ContactPage.nameInput (ContactPage.name d))
    ContactPage.messageInput (ContactPage.message d).

(** No field of the contact form data has a line break. *)
Definition single_line_data (d : ContactPage.ContactFormData) : bool :=
  single_line (ContactPage.email d) && single_line (ContactPage.name d)
  && single_line (ContactPage.message d).

(** The three inputs of the contact form are on display. *)
Definition contact_inputs_ready (p : Page) : bool :=
  uniquely_shows p ContactPage.emailInput
  && uniquely_shows p ContactPage.nameInput
  && uniquely_shows p ContactPage.messageInput.

(** The empty contact form. *)
Definition no_data : ContactPage.ContactFormData :=
  {| ContactPage.email := EmptyString; ContactPage.name := EmptyString;
     ContactPage.message := EmptyString |}.

(** The [fill] a field of a partial form causes: none when the field
    is absent or empty. *)
Definition fill_of (sel : string) (field : option string) : list Action :=
  if JS.truthy (JS.or_empty field) then [Fill sel 0 (JS.or_empty field)]
  else [].

(** The world after a click on [btn] was answered with the page [p']
    and the dialog [dlg], an observer having been armed just before,
    and two seconds have passed. *)
Definition submitted (w : World) (btn : string) (p' : Page)
  (dlg : option string) : World :=
  {| page := p'; now := (now w + 2000)%N;
     log := log w ++ [Click btn 0];
     armed := match dlg with Some _ => false | None => true end;
     captured := dlg |}.

(** What a partial form asks to be filled in: absent and empty fields
    count as empty. *)
Definition given (d : ContactPage.PartialContactFormData)
  : ContactPage.ContactFormData :=
  {| ContactPage.email := JS.or_empty (ContactPage.email_opt d);
     ContactPage.name := JS.or_empty (ContactPage.name_opt d);
     ContactPage.message := JS.or_empty (ContactPage.message_opt d) |}.

(** The six inputs of the order modal are on display. *)
Definition order_form_ready (p : Page) : bool :=
  uniquely_shows p CartPage.nameInput
  && uniquely_shows p CartPage.countryInput
  && uniquely_shows p CartPage.cityInput
  && uniquely_shows p CartPage.creditCardInput
  && uniquely_shows p CartPage.monthInput
  && uniquely_shows p CartPage.yearInput.

(** No field of the order has a line break. *)
Definition single_line_order (d : CartPage.OrderDetails) : bool :=
  single_line (CartPage.order_name d) && single_line (CartPage.country d)
  && single_line (CartPage.city d) && single_line (CartPage.creditCard d)
  && single_line (CartPage.month d) && single_line (CartPage.year d).

(** The login modal is open with its inputs and its button on display. *)
Definition login_form_ready (p : Page) : bool :=
  uniquely_shows p AuthenticationPage.loginModal
  && uniquely_shows p AuthenticationPage.loginUsernameInput
  && uniquely_shows p AuthenticationPage.loginPasswordInput
  && uniquely_shows p AuthenticationPage.loginButton.

(** The login form holding the credentials. *)
Definition login_form_with (p : Page) (username password : string) : Page :=
  with_value
    (with_value p AuthenticationPage.loginUsernameInput username)
    AuthenticationPage.loginPasswordInput password.

(** No code unit of [s] is [c]. *)
Fixpoint free_of (c : ascii) (s : string) : bool :=
  match s with
  | EmptyString => true
  | String a s' => negb (Ascii.eqb a c) && free_of c s'
  end.

(** No code unit of [s] is a decimal digit. *)
Fixpoint digitless (s : string) : bool :=
  match s with
  | EmptyString => true
  | String c s' => negb (JS.is_digit c) && digitless s'
  end.

(** Every code unit of [s] is a dot. *)
Fixpoint dots (s : string) : bool :=
  match s with
  | EmptyString => true
  | String c s' => Ascii.eqb c "." && dots s'
  end.

(** Every code unit of [s] is neither a digit nor a dot. *)
Fixpoint junk (s : string) : bool :=
  match s with
  | EmptyString => true
  | String c s' => JS.not_digit_or_dot c && junk s'
  end.

(** A row with a name cell and a price cell. *)
Definition readable (r : Tr) : bool :=
  match tr_name r, tr_price r with
  | Some _, Some _ => true
  | _, _ => false
  end.

(** The three categories of the shop. *)
Definition known_category (category : string) : bool :=
  String.eqb category "Phones" || String.eqb category "Laptops"
  || String.eqb category "Monitors".

(** The link [selectProductCategory] clicks for a category. *)
Definition category_link (category : string) : string :=
  if String.eqb category "Phones" then HomePage.phonesCategory
  else if String.eqb category "Laptops" then HomePage.laptopsCategory
  else HomePage.monitorsCategory.

(** ** Further sample pages *)

Module Store.

(** The shop of [Shop.shop], which also answers the login button (a
    dialog on unknown credentials, otherwise the modal closes and the
    welcome message appears) and the send button of the contact form. *)
Definition store (users : list (string * string)) : App :=
  fun sel k p =>
    if String.eqb sel AuthenticationPage.loginButton then
      let user := Shop.value_of AuthenticationPage.loginUsernameInput p in
      let pass := Shop.value_of AuthenticationPage.loginPasswordInput p in
      if existsb (fun up => String.eqb (fst up) user
                            && String.eqb (snd up) pass) users
      then
        ({| dom := (AuthenticationPage.welcomeMessage,
                    Shop.shown ("Welcome " ++ user))
                   :: (AuthenticationPage.logoutButton, Shop.shown "Log out")
                   :: Shop.set_visible AuthenticationPage.loginModal false
                        (dom p);
            rows := rows p |}, None)
      else if existsb (fun up => String.eqb (fst up) user) users
      then (p, Some "Wrong password.")
      else (p, Some "User does not exist.")
    else if String.eqb sel ContactPage.sendMessageButton then
      (p, Some "Thanks for the message!!")
    else Shop.shop (map fst users) sel k p.

(** An application that confirms every registration in a dialog while
    the page stays as it is, the modal still open. *)
Definition lingering : App :=
  fun _ _ p => (p, Some "Sign up successful.").


(** A cart holding one article that costs nothing, with a total of one
    cent on display. *)
Definition one_cent_cart : Page :=
  Shop.cart_page "0.01" [Shop.cart_row "Sticker" "0"].

(** Two carts whose total on display is one cent above the price of
    their only line. *)
Definition cent_above_100 : Page :=
  Shop.cart_page "100.02" [Shop.cart_row "Headset" "100.01"].

Definition cent_above_1 : Page :=
  Shop.cart_page "1.01" [Shop.cart_row "Cable" "1.00"].

(** A name over two lines. *)
Definition two_line_name : string := "Ann" ++ String "010" "Lee".

Definition login_page : Page :=
  {| dom := [ (AuthenticationPage.loginModal, Shop.shown EmptyString);
              (AuthenticationPage.loginUsernameInput, Shop.input EmptyString);
              (AuthenticationPage.loginPasswordInput, Shop.input EmptyString);
              (AuthenticationPage.loginButton, Shop.shown "Log in") ];
     rows := [] |}.

(** The contact modal, holding stale data from an earlier visit. *)
Definition contact_modal_page : Page :=
  {| dom := [ (ContactPage.contactModal, Shop.shown EmptyString);
              (ContactPage.emailInput, Shop.input "old@example.com");
              (ContactPage.nameInput, Shop.input "Old Name");
              (ContactPage.messageInput, Shop.textarea "old message");
              (ContactPage.sendMessageButton, Shop.shown "Send message") ];
     rows := [] |}.

Definition order_modal_page : Page :=
  {| dom := [ (CartPage.nameInput, Shop.input EmptyString);
              (CartPage.countryInput, Shop.input EmptyString);
              (CartPage.cityInput, Shop.input EmptyString);
              (CartPage.creditCardInput, Shop.input EmptyString);
              (CartPage.monthInput, Shop.input EmptyString);
              (CartPage.yearInput, Shop.input EmptyString) ];
     rows := [] |}.

Definition product_page : Page :=
  {| dom := [ (ProductPage.productTitle, Shop.shown "Samsung galaxy s6");
              (ProductPage.productPrice, Shop.shown "$360 *includes tax");
              (ProductPage.productDescription,
               Shop.shown "The Samsung Galaxy S6 is powered by ...") ];
     rows := [] |}.

(** A page that is not the cart page: it has no [#page-wrapper], yet a
    row under [#tbodyid]. *)
Definition stray_rows_page : Page :=
  {| dom := [ (ProductPage.productTitle, Shop.shown "Samsung galaxy s6") ];
     rows := [ Shop.cart_row "Samsung galaxy s6" "360" ] |}.

Definition home_page : Page :=
  {| dom := [ (HomePage.phonesCategory, Shop.shown "Phones");
              (HomePage.laptopsCategory, Shop.shown "Laptops");
              (HomePage.monitorsCategory, Shop.shown "Monitors");
              (HomePage.productCards, Shop.shown "Samsung galaxy s6") ];
     rows := [] |}.

(** A cart whose only line has a price without any digit. *)
Definition free_item_cart : Page :=
  Shop.cart_page "360"
    [ Shop.cart_row "Samsung galaxy s6" "360";
      Shop.cart_row "Gift" "free" ].

(** A sample order. *)
Definition customer : CartPage.OrderDetails :=
  {| CartPage.order_name := "Sathish Kumar";
     CartPage.country := "India";
     CartPage.city := "Bangalore";
     CartPage.creditCard := "4111111111111111";
     CartPage.month := "03";
     CartPage.year := "2026" |}.

End Store.

(* ================================================================== *)
(** * Facts about the built-ins *)
(* ================================================================== *)

Section StringFacts.

Lemma startsWith_app (p post : string) : JS.startsWith (p ++ post) p = true.
Proof.
  induction p as [|a p IH]; simpl; [reflexivity|].
  now rewrite Ascii.eqb_refl, IH.
Qed.

Lemma startsWith_inv (s p : string) :
  JS.startsWith s p = true -> exists post, s = p ++ post.
Proof.
  revert s; induction p as [|a p IH]; intros s H.
  - now exists s.
  - destruct s as [|b s]; simpl in H; [discriminate|].
    apply andb_true_iff in H as [Hab Hs].
    apply Ascii.eqb_eq in Hab; subst b.
    destruct (IH _ Hs) as [post ->].
    now exists post.
Qed.

Lemma startsWith_iff (s p : string) :
  JS.startsWith s p = true <-> exists post, s = p ++ post.
Proof.
  split; [apply startsWith_inv|].
  intros [post ->]; apply startsWith_app.
Qed.

Lemma includes_unfold (s sub : string) :
  JS.includes s sub =
  JS.startsWith s sub ||
  match s with
  | EmptyString => false
  | String _ s' => JS.includes s' sub
  end.
Proof. destruct s; reflexivity. Qed.

(** [includes] is the substring relation. *)
Lemma includes_iff (s sub : string) :
  JS.includes s sub = true <-> exists pre post, s = pre ++ sub ++ post.
Proof.
  split.
  - induction s as [|c s IH]; rewrite includes_unfold; intros H;
      apply orb_true_iff in H as [H|H].
    + apply startsWith_inv in H as [post E]. now exists EmptyString, post.
    + discriminate.
    + apply startsWith_inv in H as [post E]. now exists EmptyString, post.
    + destruct (IH H) as (pre & post & ->).
      now exists (String c pre), post.
  - intros (pre & post & ->).
    induction pre as [|c pre IH].
    + rewrite includes_unfold. simpl. now rewrite startsWith_app.
    + change (String c pre ++ sub ++ post)
        with (String c (pre ++ sub ++ post)).
      rewrite includes_unfold, IH. apply orb_true_r.
Qed.

Lemma trimStart_blank (s : string) :
  JS.trimStart s = EmptyString <-> blank s = true.
Proof.
  induction s as [|c s IH]; simpl; [tauto|].
  destruct (JS.is_white_space c); simpl; [exact IH|].
  split; discriminate.
Qed.

Lemma trimEnd_blank (s : string) :
  JS.trimEnd s = EmptyString <-> blank s = true.
Proof.
  induction s as [|c s IH]; simpl; [tauto|].
  destruct (JS.trimEnd s) eqn:E.
  - destruct (JS.is_white_space c); simpl.
    + split; intros _; [now apply IH|reflexivity].
    + split; discriminate.
  - split; [discriminate|].
    intros H. apply andb_true_iff in H as [_ H].
    apply IH in H. discriminate.
Qed.

Lemma trimStart_not_blank (s : string) :
  blank s = false -> blank (JS.trimStart s) = false.
Proof.
  induction s as [|c s IH]; simpl; [discriminate|].
  destruct (JS.is_white_space c) eqn:E; simpl; [exact IH|].
  now rewrite E.
Qed.

(** [s.trim() === ''] exactly when [s] is white space only. *)
Lemma trim_blank (s : string) :
  JS.trim s = EmptyString <-> blank s = true.
Proof.
  unfold JS.trim. rewrite trimEnd_blank.
  destruct (blank s) eqn:E.
  - apply trimStart_blank in E. rewrite E. simpl. tauto.
  - rewrite (trimStart_not_blank _ E). tauto.
Qed.

End StringFacts.

Section NumberFacts.

(** The model of [parseFloat] against binary64 values written out. *)

Example parseFloat_integer : JS.parseFloat "360" = 360%float.
Proof. reflexivity. Qed.

Example parseFloat_tenth :
  JS.parseFloat "0.1" = 0x1.999999999999ap-4%float.
Proof. reflexivity. Qed.

Example parseFloat_hundredth : JS.parseFloat "0.01" = CartPage.tolerance.
Proof. reflexivity. Qed.

Example parseFloat_second_dot :
  JS.parseFloat "1.2.3" = 0x1.3333333333333p+0%float.
Proof. reflexivity. Qed.

Example parseFloat_exponent : JS.parseFloat "  -12.5e-1kg" = (-1.25)%float.
Proof. reflexivity. Qed.

Example parseFloat_no_digits :
  JS.parseFloat EmptyString = nan /\ JS.parseFloat "." = nan.
Proof. split; reflexivity. Qed.

Example parse_price_currency :
  CartPage.parse_price "$1,234.50 USD" = 1234.5%float.
Proof. reflexivity. Qed.

(** The sum is a binary64 sum: one tenth plus two tenths is not the
    number nearest to three tenths. *)
Example tenths_do_not_add_up :
  (JS.parseFloat "0.1" + JS.parseFloat "0.2")%float
  = 0x1.3333333333334p-2%float /\
  JS.parseFloat "0.3" = 0x1.3333333333333p-2%float.
Proof. split; reflexivity. Qed.

(** The comparison with the tolerance is strict. *)
Example tolerance_is_strict :
  PrimFloat.ltb
    (PrimFloat.abs (JS.parseFloat "0.01" - JS.parseFloat "0")%float)
    CartPage.tolerance = false.
Proof. reflexivity. Qed.

End NumberFacts.

(* ================================================================== *)
(** * Reasoning about scripts *)
(* ================================================================== *)

Section Observations.

Lemma tick_0 (w : World) : tick 0 w = w.
Proof. destruct w; unfold tick; simpl. now rewrite N.add_0_r. Qed.

Lemma tick_tick (a b : N) (w : World) : tick b (tick a w) = tick (a + b) w.
Proof. unfold tick; simpl. now rewrite N.add_assoc. Qed.

Lemma observes_ret {A} (a : A) : observes (ret a) (fun _ => Ok a).
Proof. intros w; exists 0%N. now rewrite tick_0. Qed.

Lemma observes_bind {A B} (m : M A) (k : A -> M B) f g :
  observes m f -> (forall a, observes (k a) (g a)) ->
  observes (bind m k)
    (fun p => match f p with Ok a => g a p | Throw e => Throw e end).
Proof.
  intros Hm Hk w. unfold bind.
  destruct (Hm w) as [dt ->].
  destruct (f (page w)) as [a|e].
  - destruct (Hk a (tick dt w)) as [dt' ->].
    exists (dt + dt')%N. now rewrite tick_tick.
  - now exists dt.
Qed.

Lemma observes_try_catch {A} (m : M A) (h : Error -> M A) f g :
  observes m f -> (forall e, observes (h e) (g e)) ->
  observes (try_catch m h)
    (fun p => match f p with Ok a => Ok a | Throw e => g e p end).
Proof.
  intros Hm Hh w. unfold try_catch.
  destruct (Hm w) as [dt ->].
  destruct (f (page w)) as [a|e].
  - now exists dt.
  - destruct (Hh e (tick dt w)) as [dt' ->].
    exists (dt + dt')%N. now rewrite tick_tick.
Qed.

Lemma observes_waitForTimeout (ms : N) :
  observes (waitForTimeout ms) (fun _ => Ok tt).
Proof. intros w; now exists ms. Qed.

Lemma observes_waitForSelector (sel : string) (timeout : N) :
  observes (waitForSelector sel timeout)
    (fun p => if is_visible (hd_error (locate sel p)) then Ok tt
              else Throw (TimeoutError sel)).
Proof.
  intros w; unfold waitForSelector.
  destruct (is_visible _).
  - exists 0%N. now rewrite tick_0.
  - now exists timeout.
Qed.

Lemma observes_count (sel : string) :
  observes (count sel) (fun p => Ok (length (locate sel p))).
Proof. intros w; exists 0%N. now rewrite tick_0. Qed.

Lemma observes_attached (l : Locator) :
  observes (attached l)
    (fun p => match resolve l p with
              | Ok (Some e) => Ok e
              | Ok None => Throw (TimeoutError (selector_of l))
              | Throw e => Throw e
              end).
Proof.
  intros w; unfold attached.
  destruct (resolve l (page w)) as [[e|]|e].
  - exists 0%N. now rewrite tick_0.
  - now exists actionTimeout.
  - exists 0%N. now rewrite tick_0.
Qed.

Lemma observes_expect_toBeVisible (l : Locator) (timeout : N) :
  observes (expect_toBeVisible l timeout)
    (fun p => match resolve l p with
              | Ok o => if is_visible o then Ok tt
                        else Throw (ExpectError (selector_of l))
              | Throw e => Throw e
              end).
Proof.
  intros w; unfold expect_toBeVisible.
  destruct (resolve l (page w)) as [o|e].
  - destruct (is_visible o).
    + exists 0%N. now rewrite tick_0.
    + now exists timeout.
  - exists 0%N. now rewrite tick_0.
Qed.

(** Whatever function describes an observing script, the script run
    on a freshly opened page computes it. *)
Lemma observes_canonical {A} (m : M A) f :
  observes m f -> observes m (fun p => fst (m (opened p))).
Proof.
  intros Hm w. destruct (Hm w) as [dt Hw]. exists dt.
  rewrite Hw. destruct (Hm (opened (page w))) as [dt' ->]. reflexivity.
Qed.

Lemma observes_for_loop {T} (body : nat -> T -> M T) :
  (forall i s, exists g, observes (body i s) g) ->
  forall n i s,
    observes (for_loop n i body s)
      (fun p => fst (for_loop n i body s (opened p))).
Proof.
  intros Hb n; induction n as [|n IH]; intros i s.
  - eapply observes_canonical; simpl. apply observes_ret.
  - destruct (Hb i s) as [g Hg].
    eapply observes_canonical; simpl.
    apply observes_bind; [exact Hg|].
    intros s'. apply IH.
Qed.

Lemma observes_textContent (l : Locator) :
  exists f, observes (textContent l) f.
Proof.
  eexists. unfold textContent.
  apply observes_bind; [apply observes_attached|].
  intros e. apply observes_ret.
Qed.

(** An observing script run again on the world it left returns what it
    returned before. *)
Lemma observes_again {A} (m : M A) f :
  observes m f ->
  forall w, fst (m (snd (m w))) = fst (m w) /\
            page (snd (m w)) = page w /\
            log (snd (m w)) = log w.
Proof.
  intros Hm w. destruct (Hm w) as [dt Hw].
  destruct (Hm (snd (m w))) as [dt' Hw'].
  rewrite Hw', Hw. simpl. auto.
Qed.

End Observations.

(* ================================================================== *)
(** * ContactPage: local validation *)
(* ================================================================== *)

Section ContactPageProps.

Lemma inputValue_ok (l : Locator) (w : World) (v : string) :
  fst (inputValue l w) = Ok v -> inputValue l w = (Ok v, w).
Proof.
  unfold inputValue, bind, attached, ret.
  destruct (resolve l (page w)) as [[e|]|e]; simpl; congruence.
Qed.

Lemma truthy_eqb (s : string) :
  JS.truthy s = negb (String.eqb s EmptyString).
Proof. now destruct s. Qed.

(** C7. On a form holding [email], [name] and [message],
    [verifyFormValidation] returns [{isValid, errors}] without touching
    the page; [isValid] holds exactly when the three fields are
    non-empty and the email contains an at sign; [errors] lists every
    violated rule, one entry per rule in checking order, the format
    rule being checked only on a non-empty email; no violation hides
    another: [isValid] holds exactly when [errors] is empty, and three
    empty fields give exactly the three "required" errors. *)
Theorem verifyFormValidation_enumerates
  (w : World) (email name message : string)
  (Hemail : fst (inputValue (locator ContactPage.emailInput) w) = Ok email)
  (Hname : fst (inputValue (locator ContactPage.nameInput) w) = Ok name)
  (Hmessage :
     fst (inputValue (locator ContactPage.messageInput) w) = Ok message) :
  exists v,
    ContactPage.verifyFormValidation w = (Ok v, w) /\
    (ContactPage.isValid v = true <->
       email <> EmptyString /\ name <> EmptyString /\
       message <> EmptyString /\
       exists pre post, email = pre ++ "@" ++ post) /\
    ContactPage.errors v = violated_rules email name message /\
    (ContactPage.isValid v = true <-> ContactPage.errors v = []) /\
    (email = EmptyString -> name = EmptyString -> message = EmptyString ->
     ContactPage.errors v =
       ["Email is required"; "Name is required"; "Message is required"]).
Proof.
  apply inputValue_ok in Hemail, Hname, Hmessage.
  eexists. split.
  { unfold ContactPage.verifyFormValidation, bind.
    rewrite Hemail, Hname, Hmessage. reflexivity. }
  cbn [ContactPage.isValid ContactPage.errors].
  unfold violated_rules, ContactPage.check.
  rewrite !truthy_eqb, !negb_involutive.
  assert (Hat : JS.includes email "@" = true <->
                exists pre post, email = pre ++ "@" ++ post)
    by apply includes_iff.
  destruct (String.eqb_spec email EmptyString) as [He|He];
    destruct (String.eqb_spec name EmptyString) as [Hn|Hn];
    destruct (String.eqb_spec message EmptyString) as [Hm|Hm];
    destruct (JS.includes email "@") eqn:Hinc; simpl;
    repeat split; try congruence; try tauto;
    try (intros (? & ? & ? & ?); congruence);
    try (intros (? & ? & ? & Hx); apply Hat in Hx; congruence);
    try (intros _; apply Hat; reflexivity).
Qed.

Lemma verifyFormValidation_enumerates_witness :
  exists v,
    ContactPage.verifyFormValidation
      (opened (Shop.contact_page "abc" EmptyString "hello"))
    = (Ok v, opened (Shop.contact_page "abc" EmptyString "hello")) /\
    ContactPage.errors v = ["Name is required"; "Invalid email format"].
Proof.
  destruct (verifyFormValidation_enumerates
              (opened (Shop.contact_page "abc" EmptyString "hello"))
              "abc" EmptyString "hello" eq_refl eq_refl eq_refl)
    as (v & Hrun & _ & Herr & _).
  exists v. split; [exact Hrun | exact Herr].
Defined.

End ContactPageProps.

(* ================================================================== *)
(** * Session probes and logout *)
(* ================================================================== *)

Section SessionProps.

Variable app : App.

Lemma observes_isUserLoggedIn :
  observes HomePage.isUserLoggedIn
    (fun p => Ok (shows p HomePage.logoutLink)).
Proof.
  intros w. unfold HomePage.isUserLoggedIn, try_catch, bind,
    waitForSelector, ret, shows.
  destruct (is_visible _).
  - exists 0%N. now rewrite tick_0.
  - now exists 2000%N.
Qed.

Lemma observes_isLoggedIn :
  observes AuthenticationPage.isLoggedIn
    (fun p => Ok (uniquely_shows p AuthenticationPage.welcomeMessage)).
Proof.
  intros w. unfold AuthenticationPage.isLoggedIn, try_catch, bind,
    expect_toBeVisible, ret, uniquely_shows, resolve.
  destruct (locate _ _) as [|e [|e' l]]; simpl.
  - now exists 2000%N.
  - destruct (el_visible e).
    + exists 0%N. now rewrite tick_0.
    + now exists 2000%N.
  - exists 0%N. now rewrite tick_0.
Qed.

(** The time an observing run took is what separates the two worlds. *)
Lemma tick_bound (dt bound : N) (w : World) :
  (dt <= bound)%N ->
  page (tick dt w) = page w /\ log (tick dt w) = log w /\
  (now (tick dt w) <= now w + bound)%N.
Proof. intros H. unfold tick; simpl. repeat split. lia. Qed.

(** C8. Both session probes are total and never throw: on every world
    [HomePage.isUserLoggedIn] and [AuthenticationPage.isLoggedIn]
    return a boolean, [true] exactly when the logout link (resp. the
    welcome message) is visible and [false] when the wait times out;
    they leave the page and the action log untouched and take at most
    the 2000 ms of their timeout. *)
Theorem isLoggedIn_total_probe (w : World) :
  (exists w',
     HomePage.isUserLoggedIn w
     = (Ok (shows (page w) HomePage.logoutLink), w') /\
     page w' = page w /\ log w' = log w /\
     (now w' <= now w + 2000)%N) /\
  (exists w',
     AuthenticationPage.isLoggedIn w
     = (Ok (uniquely_shows (page w) AuthenticationPage.welcomeMessage), w')
     /\ page w' = page w /\ log w' = log w /\
     (now w' <= now w + 2000)%N).
Proof.
  split.
  - unfold HomePage.isUserLoggedIn, try_catch, bind, waitForSelector, ret,
      shows.
    destruct (is_visible _); eexists; (split; [reflexivity|]).
    + repeat split; lia.
    + apply tick_bound; lia.
  - unfold AuthenticationPage.isLoggedIn, try_catch, bind,
      expect_toBeVisible, ret, uniquely_shows, resolve.
    destruct (locate _ _) as [|e [|e' l]]; simpl;
      [ | destruct (el_visible e) | ];
      eexists; (split; [reflexivity|]);
      try (apply tick_bound; lia); repeat split; lia.
Qed.

(** C5, on the code. [AuthenticationPage.logout] demands a visible
    logout button: without one it throws (the [toBeVisible] assertion
    fails), having clicked nothing.  [HomePage.logout] is guarded by
    [isUserLoggedIn]: without a visible logout link it returns
    normally, having clicked nothing. *)
Theorem logout_while_logged_out (w : World)
  (Hauth : uniquely_shows (page w) AuthenticationPage.logoutButton = false)
  (Hhome : shows (page w) HomePage.logoutLink = false) :
  (exists e w',
     AuthenticationPage.logout app w = (Throw e, w') /\
     page w' = page w /\ log w' = log w) /\
  (exists w',
     HomePage.logout app w = (Ok tt, w') /\
     page w' = page w /\ log w' = log w).
Proof.
  split.
  - unfold AuthenticationPage.logout, bind, expect_toBeVisible, resolve.
    unfold uniquely_shows in Hauth.
    destruct (locate _ _) as [|e [|e' l]]; simpl in *.
    + do 2 eexists. split; [reflexivity|]. now split.
    + rewrite Hauth. do 2 eexists. split; [reflexivity|]. now split.
    + do 2 eexists. split; [reflexivity|]. now split.
  - unfold HomePage.logout, bind.
    destruct (observes_isUserLoggedIn w) as [dt ->].
    rewrite Hhome. eexists. split; [reflexivity|]. now split.
Qed.

End SessionProps.

Lemma logout_while_logged_out_witness :
  (exists e w',
     AuthenticationPage.logout (Shop.shop [])
       (opened Shop.logged_out_page) = (Throw e, w') /\
     page w' = Shop.logged_out_page /\ log w' = []) /\
  (exists w',
     HomePage.logout (Shop.shop []) (opened Shop.logged_out_page)
     = (Ok tt, w') /\
     page w' = Shop.logged_out_page /\ log w' = []).
Proof.
  apply (logout_while_logged_out (Shop.shop [])
           (opened Shop.logged_out_page)); reflexivity.
Defined.

(** C5, as stated, fails on [HomePage.logout]: called on the logged-out
    page it returns normally, and neither the page nor the action log has
    changed. *)
Lemma HomePage_logout_silent_noop :
  shows Shop.logged_out_page HomePage.logoutLink = false /\
  exists w',
    HomePage.logout (Shop.shop []) (opened Shop.logged_out_page)
    = (Ok tt, w') /\
    page w' = Shop.logged_out_page /\ log w' = [].
Proof.
  split; [reflexivity|].
  eexists. split; [reflexivity|]. now split.
Qed.

(* ================================================================== *)
(** * CartPage: reading the cart *)
(* ================================================================== *)

Section CartReads.

Lemma locate_rows (p : Page) :
  locate CartPage.cartItems p = map tr_row (rows p).
Proof. reflexivity. Qed.

Lemma locate_names (p : Page) :
  locate CartPage.cartItemNames p = cells tr_name (rows p).
Proof. reflexivity. Qed.

Lemma locate_prices (p : Page) :
  locate CartPage.cartItemPrices p = cells tr_price (rows p).
Proof. reflexivity. Qed.

Lemma locate_deletes (p : Page) :
  locate CartPage.deleteButtons p = cells tr_delete (rows p).
Proof. reflexivity. Qed.

Lemma no_text_blank (t : option string) :
  CartPage.no_text t = blank_text t.
Proof.
  destruct t as [s|]; [|reflexivity]. simpl.
  destruct s as [|c s]; [reflexivity|].
  cbn [JS.truthy negb orb].
  destruct (blank (String c s)) eqn:E.
  - apply trim_blank in E. now rewrite E.
  - destruct (String.eqb_spec (JS.trim (String c s)) EmptyString) as [H|H];
      [|reflexivity].
    apply trim_blank in H. congruence.
Qed.

(** On a rendered cart page the count is [item_count], read in the
    three seconds of the settle delay. *)
Lemma getCartItemCount_rendered (w : World) :
  shows (page w) "#page-wrapper" = true ->
  CartPage.getCartItemCount w = (Ok (item_count (page w)), tick 3000 w).
Proof.
  intros H. unfold shows in H.
  unfold CartPage.getCartItemCount, try_catch, bind, waitForSelector.
  rewrite H. unfold waitForTimeout, count, textContent, bind, attached.
  cbn [page tick]. rewrite locate_rows. unfold item_count.
  destruct (rows (page w)) as [|r [|r' rs]] eqn:E; try reflexivity.
  all: unfold first, resolve; cbn; rewrite E; cbn.
  - now rewrite no_text_blank.
  - now rewrite length_map.
Qed.

(** Without the page wrapper the [catch] branch answers zero. *)
Lemma getCartItemCount_not_rendered (w : World) :
  shows (page w) "#page-wrapper" = false ->
  CartPage.getCartItemCount w = (Ok 0, tick 5000 w).
Proof.
  intros H. unfold shows in H.
  unfold CartPage.getCartItemCount, try_catch, bind, waitForSelector.
  now rewrite H.
Qed.

(** C2. On every rendered cart page [getCartItemCount] returns the
    number of rows of the table, except that exactly one row whose
    text is absent, empty or white space only counts as zero items;
    the page and the action log are left as they were. *)
Theorem getCartItemCount_placeholder_row (w : World)
  (Hrendered : shows (page w) "#page-wrapper" = true) :
  exists n w',
    CartPage.getCartItemCount w = (Ok n, w') /\
    page w' = page w /\ log w' = log w /\
    (forall r, rows (page w) = [r] ->
               blank_text (el_text (tr_row r)) = true -> n = 0) /\
    (forall r, rows (page w) = [r] ->
               blank_text (el_text (tr_row r)) = false -> n = 1) /\
    (length (rows (page w)) <> 1 -> n = length (rows (page w))).
Proof.
  exists (item_count (page w)), (tick 3000 w).
  split; [now apply getCartItemCount_rendered|].
  unfold item_count.
  repeat split.
  - intros r Hr Hb. now rewrite Hr, Hb.
  - intros r Hr Hb. now rewrite Hr, Hb.
  - destruct (rows (page w)) as [|r [|r' rs]]; simpl; congruence.
Qed.

Lemma getCartItemCount_placeholder_row_witness :
  exists n w',
    CartPage.getCartItemCount
      (opened (Shop.cart_page EmptyString [Shop.placeholder_row]))
    = (Ok n, w') /\ n = 0.
Proof.
  destruct (getCartItemCount_placeholder_row
              (opened (Shop.cart_page EmptyString [Shop.placeholder_row]))
              eq_refl)
    as (n & w' & Hrun & _ & _ & Hblank & _).
  exists n, w'. split; [exact Hrun|].
  exact (Hblank Shop.placeholder_row eq_refl eq_refl).
Defined.

Lemma observes_getCartItems :
  observes CartPage.getCartItems
    (fun p => fst (CartPage.getCartItems (opened p))).
Proof.
  eapply observes_canonical. unfold CartPage.getCartItems.
  apply observes_bind; [apply observes_waitForSelector|]. intros ?.
  apply observes_bind; [apply observes_waitForTimeout|]. intros ?.
  apply observes_bind; [apply observes_count|]. intros n.
  apply observes_for_loop. intros i items.
  destruct (observes_textContent (nth CartPage.cartItemNames i))
    as [f1 H1].
  destruct (observes_textContent (nth CartPage.cartItemPrices i))
    as [f2 H2].
  eexists.
  apply observes_bind.
  { apply observes_bind; [exact H1|]. intros t. apply observes_ret. }
  intros name_.
  apply observes_bind.
  { apply observes_bind; [exact H2|]. intros t. apply observes_ret. }
  intros price_. apply observes_ret.
Qed.

(** C9. [getCartItems] is a cache-free read: it changes neither the
    page nor the action log, and called again on the world it left it
    returns the same outcome; when that outcome is a sequence of cart
    lines, the two sequences have the same length and the same name
    and price at every index. *)
Theorem getCartItems_twice (w : World) :
  let first_call := CartPage.getCartItems w in
  let second_call := CartPage.getCartItems (snd first_call) in
  fst second_call = fst first_call /\
  page (snd first_call) = page w /\ log (snd first_call) = log w /\
  page (snd second_call) = page w /\
  forall items1 items2,
    fst first_call = Ok items1 -> fst second_call = Ok items2 ->
    length items1 = length items2 /\
    forall i, option_map CartPage.name (nth_error items1 i)
              = option_map CartPage.name (nth_error items2 i) /\
              option_map CartPage.price (nth_error items1 i)
              = option_map CartPage.price (nth_error items2 i).
Proof.
  intros first_call second_call.
  destruct (observes_again _ _ observes_getCartItems w) as (H1 & H2 & H3).
  destruct (observes_again _ _ observes_getCartItems (snd first_call))
    as (_ & H4 & _).
  fold first_call in H1, H2, H3. fold second_call in H1, H4.
  split; [exact H1|]. split; [exact H2|]. split; [exact H3|].
  split; [congruence|].
  intros items1 items2 Ha Hb. rewrite H1, Ha in Hb.
  injection Hb as <-. split; [reflexivity|].
  intros i; split; reflexivity.
Qed.

End CartReads.

(* ================================================================== *)
(** * CartPage: membership and totals *)
(* ================================================================== *)

Section CartQueries.

Lemma bind_ok {A B} (m : M A) (k : A -> M B) (w w' : World) (a : A) :
  m w = (Ok a, w') -> bind m k w = k a w'.
Proof. intros H. unfold bind. now rewrite H. Qed.

Lemma findIndex_from_spec {A} (pred : A -> bool) (l : list A) (i : Z) :
  (JS.findIndex_from pred l i = (-1)%Z /\
   forall x, In x l -> pred x = false) \/
  (exists k, JS.findIndex_from pred l i = (i + Z.of_nat k)%Z /\
             first_match pred l k).
Proof.
  revert i; induction l as [|x l IH]; intros i; simpl.
  - left. split; [reflexivity|]. intros x [].
  - destruct (pred x) eqn:Hx.
    + right. exists 0. split; [lia|]. split.
      * exists x. now split.
      * intros j y Hj. lia.
    + destruct (IH (i + 1)%Z) as [[H1 H2]|(k & H1 & (y & Hy & Hp) & Hmin)].
      * left. split; [exact H1|]. intros y [<-|Hy]; auto.
      * right. exists (S k). split; [lia|]. split.
        -- exists y. now split.
        -- intros j z Hj Hz. destruct j as [|j]; simpl in Hz.
           ++ congruence.
           ++ apply (Hmin j z); [lia|exact Hz].
Qed.

(** [findIndex] answers [-1] exactly when no element satisfies the
    predicate, and otherwise the first index that does. *)
Lemma findIndex_spec {A} (pred : A -> bool) (l : list A) :
  (JS.findIndex pred l = (-1)%Z /\ forall x, In x l -> pred x = false) \/
  (exists k, JS.findIndex pred l = Z.of_nat k /\ first_match pred l k).
Proof.
  unfold JS.findIndex.
  destruct (findIndex_from_spec pred l 0) as [H|(k & H1 & H2)];
    [now left|right].
  exists k. split; [lia|exact H2].
Qed.

Lemma some_iff {A} (pred : A -> bool) (l : list A) :
  JS.some pred l = true <-> exists x, In x l /\ pred x = true.
Proof. apply existsb_exists. Qed.

(** The found branch of [removeItemByName] may time out on its link
    but never raises the script's own error. *)
Lemma delete_branch_not_JsError (app : App) (i : nat) (w : World) msg :
  fst (bind (click app (nth CartPage.deleteButtons i))
         (fun _ => waitForTimeout 1000) w) <> Throw (JsError msg).
Proof.
  unfold bind, click, actionable, resolve, waitForTimeout.
  destruct (nth_error _ _) as [e|]; [destruct (el_visible e)|];
    simpl; discriminate.
Qed.

(** Whether [removeItemByName] raises its not-found error is decided
    by exact equality of names. *)
Lemma removeItemByName_not_found_iff (app : App) (w w1 : World)
  (items : list CartPage.CartItem) (s : string) :
  CartPage.getCartItems w = (Ok items, w1) ->
  (fst (CartPage.removeItemByName app s w)
   = Throw (JsError (CartPage.not_found_message s))
   <-> forall it, In it items -> CartPage.name it <> s).
Proof.
  intros Hread. unfold CartPage.removeItemByName.
  rewrite (bind_ok _ _ _ _ _ Hread).
  destruct (findIndex_spec
              (fun item => String.eqb (CartPage.name item) s) items)
    as [[-> Hnone]|(k & -> & (x & Hx & Hp) & _)].
  - simpl. split; [|reflexivity].
    intros _ it Hin Heq. apply Hnone in Hin.
    apply String.eqb_neq in Hin. contradiction.
  - replace (0 <=? Z.of_nat k)%Z with true by (symmetry; apply Z.leb_le; lia).
    split.
    + intros H. now apply delete_branch_not_JsError in H.
    + intros H. exfalso. apply (H x).
      * eapply nth_error_In; exact Hx.
      * now apply String.eqb_eq.
Qed.

(** C10. On every cart that reads as [items], [verifyItemInCart s]
    returns [true] exactly when [s] occurs as a substring of the name
    of some line, whereas [removeItemByName s] raises its not-found
    error exactly when no line has a name equal to [s]. *)
Theorem verifyItemInCart_containment (app : App) (w w1 : World)
  (items : list CartPage.CartItem) (s : string)
  (Hread : CartPage.getCartItems w = (Ok items, w1)) :
  (exists b,
     CartPage.verifyItemInCart s w = (Ok b, w1) /\
     (b = true <->
      exists it pre post,
        In it items /\ CartPage.name it = pre ++ s ++ post)) /\
  (fst (CartPage.removeItemByName app s w)
   = Throw (JsError (CartPage.not_found_message s))
   <-> forall it, In it items -> CartPage.name it <> s).
Proof.
  split; [|exact (removeItemByName_not_found_iff app w w1 items s Hread)].
  eexists. split.
  - unfold CartPage.verifyItemInCart.
    rewrite (bind_ok _ _ _ _ _ Hread). reflexivity.
  - rewrite some_iff. split.
    + intros (it & Hin & Hinc). apply includes_iff in Hinc.
      destruct Hinc as (pre & post & Heq). now exists it, pre, post.
    + intros (it & pre & post & Hin & Heq). exists it.
      split; [exact Hin|]. apply includes_iff. now exists pre, post.
Qed.

Lemma strip_digits_and_dots (s : string) :
  JS.replace_class_g JS.not_digit_or_dot s = digits_and_dots s.
Proof.
  induction s as [|c s IH]; [reflexivity|].
  cbn [JS.replace_class_g digits_and_dots]. rewrite IH.
  unfold JS.not_digit_or_dot.
  now destruct (JS.is_digit c || Ascii.eqb c ".").
Qed.

Lemma reduce_running_sum (items : list CartPage.CartItem) (acc : JS.number) :
  JS.reduce
    (fun total item =>
       (total + CartPage.parse_price (CartPage.price item))%float)
    items acc
  = running_sum acc
      (map (fun it => JS.parseFloat (digits_and_dots (CartPage.price it)))
           items).
Proof.
  unfold JS.reduce. revert acc.
  induction items as [|it items IH]; intros acc; simpl; [reflexivity|].
  rewrite IH. unfold CartPage.parse_price.
  now rewrite strip_digits_and_dots.
Qed.

(** C3. On a cart that reads as [items], [calculateExpectedTotal]
    returns the sum over all lines, from zero and in line order, of
    the price parsed by [parseFloat] after every character that is
    neither a digit nor a dot has been removed; and when the displayed
    total reads as [total], [verifyTotalPrice] returns whether the
    absolute difference between that sum and the total parsed the same
    way is strictly less than 0.01, the binary64 number
    [0x1.47ae147ae147bp-7], all in binary64 arithmetic.  A difference
    that is exactly that number is therefore rejected. *)
Theorem verifyTotalPrice_tolerance (w w1 w2 : World)
  (items : list CartPage.CartItem) (total : string)
  (Hread : CartPage.getCartItems w = (Ok items, w1))
  (Htotal : CartPage.getTotalPrice w1 = (Ok total, w2)) :
  let expected := sum_of_prices items in
  let actual := JS.parseFloat (digits_and_dots total) in
  CartPage.calculateExpectedTotal w = (Ok expected, w1) /\
  CartPage.verifyTotalPrice w
  = (Ok (PrimFloat.ltb (PrimFloat.abs (expected - actual)%float)
           0x1.47ae147ae147bp-7%float), w2) /\
  (PrimFloat.abs (expected - actual)%float = 0x1.47ae147ae147bp-7%float ->
   CartPage.verifyTotalPrice w = (Ok false, w2)).
Proof.
  intros expected actual.
  assert (Hcalc : CartPage.calculateExpectedTotal w = (Ok expected, w1)).
  { unfold CartPage.calculateExpectedTotal.
    rewrite (bind_ok _ _ _ _ _ Hread). unfold ret.
    now rewrite reduce_running_sum. }
  assert (Hrun : CartPage.verifyTotalPrice w
                 = (Ok (PrimFloat.ltb
                          (PrimFloat.abs (expected - actual)%float)
                          0x1.47ae147ae147bp-7%float), w2)).
  { unfold CartPage.verifyTotalPrice.
    rewrite (bind_ok _ _ _ _ _ Hcalc).
    unfold bind at 1. rewrite (bind_ok _ _ _ _ _ Htotal).
    unfold ret, CartPage.parse_price.
    rewrite strip_digits_and_dots. reflexivity. }
  split; [exact Hcalc|]. split; [exact Hrun|].
  intros Hexact. rewrite Hrun, Hexact. reflexivity.
Qed.

End CartQueries.

(* ================================================================== *)
(** * AuthenticationPage: registration *)
(* ================================================================== *)

Section Registration.

Variable app : App.
Variables username password : string.

Lemma signUp_split (w : World) :
  AuthenticationPage.signUp app username password w
  = bind (fillSignUpForm username password)
      (fun _ =>
         click app (locator AuthenticationPage.signUpButton) ;;
         waitForTimeout 2000 ;;
         message <- alertMessage ;;
         (if JS.includes message "Sign up successful"
          then expect_toBeHidden (locator AuthenticationPage.signUpModal)
          else ret tt) ;;
         ret (JS.includes message "Sign up successful")) w.
Proof.
  unfold AuthenticationPage.signUp, fillSignUpForm, bind.
  destruct (AuthenticationPage.waitForSignUpModal w) as [[[]|?] ?];
    [|reflexivity].
  destruct (fill _ _ _) as [[[]|?] ?]; [|reflexivity].
  destruct (fill _ _ _) as [[[]|?] ?]; reflexivity.
Qed.

Lemma attemptSignUp_split (w : World) :
  AuthenticationPage.attemptSignUpWithExistingUser app username password w
  = bind (fillSignUpForm username password)
      (fun _ =>
         click app (locator AuthenticationPage.signUpButton) ;;
         waitForTimeout 2000 ;;
         alertMessage) w.
Proof.
  unfold AuthenticationPage.attemptSignUpWithExistingUser, fillSignUpForm,
    bind.
  destruct (AuthenticationPage.waitForSignUpModal w) as [[[]|?] ?];
    [|reflexivity].
  destruct (fill _ _ _) as [[[]|?] ?]; [|reflexivity].
  destruct (fill _ _ _) as [[[]|?] ?]; reflexivity.
Qed.

(** Once the form is filled the observer is armed and has heard
    nothing yet. *)
Lemma fillSignUpForm_arms (w w0 : World) :
  fillSignUpForm username password w = (Ok tt, w0) ->
  armed w0 = true /\ captured w0 = None.
Proof.
  unfold fillSignUpForm, bind.
  destruct (AuthenticationPage.waitForSignUpModal w) as [[[]|?] ?];
    [|discriminate].
  destruct (fill _ _ _) as [[[]|?] ?]; [|discriminate].
  destruct (fill _ _ _) as [[[]|?] ?]; [|discriminate].
  unfold once_dialog. intros H. injection H as <-. now split.
Qed.

(** An armed observer that has heard nothing hears exactly the dialog
    the application raises. *)
Lemma perform_delivers (sel : string) (k : nat) (w : World) p' d :
  armed w = true -> captured w = None ->
  app sel k (page w) = (p', d) ->
  page (perform app sel k w) = p' /\
  captured (perform app sel k w) = d /\
  log (perform app sel k w) = (log w ++ [Click sel k])%list.
Proof.
  intros Ha Hc Happ. unfold perform. rewrite Happ, Ha.
  destruct d as [m|]; simpl; auto.
Qed.

(** C4. Let the sign-up form be filled and the observer armed, and let
    the application answer the click on the register button with the
    page [p'] and the dialog [d].  Then
    [attemptSignUpWithExistingUser] returns the text of [d] as it is
    (the empty string when no dialog came), whatever that text says.
    [signUp] never returns the text: it returns [false], without
    throwing, exactly when the text does not contain "Sign up
    successful"; it returns [true] exactly when the text contains it
    and the modal is hidden on [p']; and when the text contains it but
    the modal is still on display, it throws. *)
Theorem signUp_classifies_dialog (w w0 : World) (button : Element)
  (p' : Page) (d : option string)
  (Hform : fillSignUpForm username password w = (Ok tt, w0))
  (Hbutton : locate AuthenticationPage.signUpButton (page w0) = [button])
  (Hvisible : el_visible button = true)
  (Hsubmit : app AuthenticationPage.signUpButton 0 (page w0) = (p', d)) :
  let text := dialog_text d in
  let w1 := tick 2000 (perform app AuthenticationPage.signUpButton 0 w0) in
  let success := exists pre post, text = pre ++ "Sign up successful" ++ post in
  let closed := hidden_or_absent p' AuthenticationPage.signUpModal in
  let result := AuthenticationPage.signUp app username password w in
  page w1 = p' /\
  AuthenticationPage.attemptSignUpWithExistingUser app username password w
  = (Ok text, w1) /\
  (~ success -> result = (Ok false, w1)) /\
  (success -> closed = true -> result = (Ok true, w1)) /\
  (success -> closed = false ->
   exists e w2,
     result = (Throw e, w2) /\ page w2 = p' /\ log w2 = log w1 /\
     (uniquely_shows p' AuthenticationPage.signUpModal = true ->
      e = ExpectError AuthenticationPage.signUpModal)) /\
  (fst result = Ok false <-> ~ success) /\
  (fst result = Ok true <-> success /\ closed = true) /\
  ((exists e, fst result = Throw e) <-> success /\ closed = false).
Proof.
  intros text w1 success closed result.
  destruct (fillSignUpForm_arms _ _ Hform) as [Harmed Hnone].
  destruct (perform_delivers AuthenticationPage.signUpButton 0 w0 p' d
              Harmed Hnone Hsubmit) as (Hpage & Hcaptured & _).
  assert (Hclick : click app (locator AuthenticationPage.signUpButton) w0
                   = (Ok tt, perform app AuthenticationPage.signUpButton 0 w0)).
  { unfold click, actionable, resolve. now rewrite Hbutton, Hvisible. }
  assert (Hmsg : alertMessage w1 = (Ok text, w1)).
  { unfold alertMessage, w1, text, dialog_text. cbn [captured tick].
    now rewrite Hcaptured. }
  assert (Hp1 : page w1 = p') by exact Hpage.
  assert (Hrun : result
                 = bind (if JS.includes text "Sign up successful"
                         then expect_toBeHidden
                                (locator AuthenticationPage.signUpModal)
                         else ret tt)
                     (fun _ => ret (JS.includes text "Sign up successful")) w1).
  { unfold result. rewrite signUp_split, (bind_ok _ _ _ _ _ Hform).
    rewrite (bind_ok _ _ _ _ _ Hclick). unfold bind at 1.
    cbn [waitForTimeout]. fold w1.
    now rewrite (bind_ok _ _ _ _ _ Hmsg). }
  assert (Hinc : JS.includes text "Sign up successful" = true <-> success)
    by apply includes_iff.
  assert (Hno : ~ success -> result = (Ok false, w1)).
  { intros Hnot. rewrite Hrun.
    destruct (JS.includes text "Sign up successful");
      [exfalso; apply Hnot; now apply Hinc|reflexivity]. }
  assert (Hyes : success -> closed = true -> result = (Ok true, w1)).
  { intros Hs Hc. apply Hinc in Hs. rewrite Hrun, Hs.
    unfold bind, expect_toBeHidden. unfold closed, hidden_or_absent in Hc.
    rewrite Hp1.
    destruct (resolve _ p') as [o|e]; [|discriminate].
    destruct (is_visible o); [discriminate|reflexivity]. }
  assert (Hopen : success -> closed = false ->
            exists e w2,
              result = (Throw e, w2) /\ page w2 = p' /\ log w2 = log w1 /\
              (uniquely_shows p' AuthenticationPage.signUpModal = true ->
               e = ExpectError AuthenticationPage.signUpModal)).
  { intros Hs Hc. apply Hinc in Hs. rewrite Hrun, Hs.
    unfold bind, expect_toBeHidden.
    unfold closed, hidden_or_absent in Hc. unfold uniquely_shows.
    rewrite Hp1. unfold resolve in *.
    destruct (locate AuthenticationPage.signUpModal p') as [|m [|m' l]];
      cbn [is_visible negb] in *; try discriminate.
    - destruct (el_visible m); [|discriminate].
      eexists _, _. split; [reflexivity|]. cbn [page log tick]. auto.
    - eexists _, _. split; [reflexivity|]. repeat split; auto.
      discriminate. }
  split; [exact Hp1|]. split.
  { rewrite attemptSignUp_split, (bind_ok _ _ _ _ _ Hform).
    rewrite (bind_ok _ _ _ _ _ Hclick). unfold bind at 1.
    cbn [waitForTimeout]. exact Hmsg. }
  split; [exact Hno|]. split; [exact Hyes|]. split; [exact Hopen|].
  clear Hrun. clearbody result closed success.
  destruct (JS.includes text "Sign up successful") eqn:Einc.
  - assert (Hs : success) by now apply Hinc.
    destruct closed.
    + rewrite (Hyes Hs eq_refl). cbn [fst]. split; [|split].
      * split; [discriminate|]. intros Hn. now elim Hn.
      * split; auto.
      * split; [intros [e He]; discriminate|intros [_ Hf]; discriminate].
    + destruct (Hopen Hs eq_refl) as (e & w2 & -> & _). cbn [fst].
      split; [|split].
      * split; [discriminate|]. intros Hn. now elim Hn.
      * split; [discriminate|intros [_ Hf]; discriminate].
      * split; [auto|]. intros _. now exists e.
  - assert (Hs : ~ success).
    { intros Hs. apply Hinc in Hs. discriminate. }
    rewrite (Hno Hs). cbn [fst]. split; [|split].
    + split; auto.
    + split; [discriminate|]. intros [Hs' _]. now elim Hs.
    + split; [intros [e He]; discriminate|]. intros [Hs' _]. now elim Hs.
Qed.

End Registration.

(* ================================================================== *)
(** * CartPage: reading a complete cart *)
(* ================================================================== *)

Section CompleteCart.

Lemma cells_nth (f : Tr -> option Element) (pre suf : list Tr) (r : Tr)
  (e : Element) :
  forallb (fun r' => match f r' with Some _ => true | None => false end) pre
  = true ->
  f r = Some e ->
  nth_error (cells f (pre ++ r :: suf)%list) (length pre) = Some e.
Proof.
  intros Hpre Hr. induction pre as [|r' pre IH]; simpl in *.
  - now rewrite Hr.
  - destruct (f r'); [|discriminate]. simpl. now apply IH.
Qed.

Lemma complete_inv (r : Tr) :
  complete r = true ->
  exists n p d, tr_name r = Some n /\ tr_price r = Some p /\
                tr_delete r = Some d /\ el_visible d = true.
Proof.
  unfold complete.
  destruct (tr_name r) as [n|], (tr_price r) as [p|],
    (tr_delete r) as [d|]; simpl; try discriminate.
  intros H. now exists n, p, d.
Qed.

Lemma forallb_complete_has (f : Tr -> option Element) (rs : list Tr) :
  (forall r, complete r = true -> exists e, f r = Some e) ->
  forallb complete rs = true ->
  forallb (fun r' => match f r' with Some _ => true | None => false end) rs
  = true.
Proof.
  intros Hf H. rewrite forallb_forall in *. intros r Hr.
  destruct (Hf r (H r Hr)) as [e ->]. reflexivity.
Qed.

Lemma for_loop_lines (w : World) (suf pre : list Tr)
  (acc : list CartPage.CartItem) :
  rows (page w) = (pre ++ suf)%list ->
  forallb complete (pre ++ suf)%list = true ->
  for_loop (length suf) (length pre)
    (fun i items =>
       name_ <- (t <- textContent (nth CartPage.cartItemNames i) ;;
                 ret (JS.or_empty t)) ;;
       price_ <- (t <- textContent (nth CartPage.cartItemPrices i) ;;
                  ret (JS.or_empty t)) ;;
       ret (items ++ [ {| CartPage.name := JS.trim name_;
                          CartPage.price := JS.trim price_ |} ])%list)
    acc w
  = (Ok (acc ++ map line_of suf)%list, w).
Proof.
  revert pre acc; induction suf as [|r suf IH]; intros pre acc Hrows Hall.
  - simpl. now rewrite app_nil_r.
  - assert (Hpre : forallb complete pre = true /\ complete r = true).
    { rewrite forallb_app in Hall. simpl in Hall.
      apply andb_true_iff in Hall as [H1 H2].
      apply andb_true_iff in H2 as [H2 _]. now split. }
    destruct Hpre as [Hpre Hr].
    destruct (complete_inv r Hr) as (n & p & d & Hn & Hp & _).
    cbn [for_loop length].
    unfold bind at 1. unfold bind at 1. unfold bind at 1.
    unfold textContent at 1. unfold bind at 1, attached at 1, resolve.
    rewrite locate_names, Hrows.
    rewrite (cells_nth tr_name pre suf r n);
      [|apply forallb_complete_has; [|exact Hpre]|exact Hn].
    2:{ intros r' Hr'. destruct (complete_inv r' Hr') as (? & _ & _ & -> & _).
        eauto. }
    cbn [ret]. unfold bind at 1. unfold bind at 1.
    unfold textContent at 1. unfold bind at 1, attached at 1, resolve.
    rewrite locate_prices, Hrows.
    rewrite (cells_nth tr_price pre suf r p);
      [|apply forallb_complete_has; [|exact Hpre]|exact Hp].
    2:{ intros r' Hr'.
        destruct (complete_inv r' Hr') as (? & ? & _ & _ & -> & _).
        eauto. }
    cbn [ret].
    replace (S (length pre)) with (length (pre ++ [r])%list)
      by (rewrite length_app; simpl; lia).
    rewrite IH.
    + f_equal. f_equal. rewrite <- app_assoc. simpl.
      unfold line_of, cell_text. now rewrite Hn, Hp.
    + now rewrite <- app_assoc.
    + now rewrite <- app_assoc.
Qed.

(** A cart whose rows are complete reads as the lines of its rows. *)
Lemma getCartItems_complete (w : World) :
  shows (page w) "#tbodyid" = true ->
  forallb complete (rows (page w)) = true ->
  CartPage.getCartItems w
  = (Ok (map line_of (rows (page w))), tick 3000 w).
Proof.
  intros Hbody Hall. unfold shows in Hbody.
  unfold CartPage.getCartItems, bind at 1, waitForSelector.
  rewrite Hbody. unfold bind at 1, waitForTimeout.
  unfold bind at 1, count. cbn [page tick].
  rewrite locate_rows, length_map.
  apply (for_loop_lines (tick 3000 w) (rows (page w)) [] []);
    [reflexivity|exact Hall].
Qed.

(** Without the table body on display nothing is read. *)
Lemma getCartItems_no_body (w : World) :
  shows (page w) "#tbodyid" = false ->
  CartPage.getCartItems w = (Throw (TimeoutError "#tbodyid"), tick 10000 w).
Proof.
  unfold shows. intros H.
  unfold CartPage.getCartItems, bind at 1, waitForSelector.
  now rewrite H.
Qed.

Lemma remove_owner_complete (k : nat) (rs : list Tr) :
  forallb deletable rs = true -> remove_owner k rs = remove_nth k rs.
Proof.
  revert k; induction rs as [|r rs IH]; intros k H.
  - now destruct k.
  - simpl in H. apply andb_true_iff in H as [Hr Hrs].
    unfold deletable in Hr. simpl.
    destruct (tr_delete r) as [d|]; [|discriminate].
    destruct k as [|k]; [reflexivity|].
    rewrite (IH k Hrs). reflexivity.
Qed.




Lemma remove_nth_In {A} (k : nat) (l : list A) (x : A) :
  In x (remove_nth k l) ->
  exists j, j <> k /\ nth_error l j = Some x.
Proof.
  unfold remove_nth. intros H. apply in_app_or in H as [H|H].
  - apply In_nth_error in H as [j Hj].
    assert (j < k).
    { assert (j < length (firstn k l))
        by (apply nth_error_Some; congruence).
      rewrite length_firstn in *. lia. }
    exists j. split; [lia|].
    rewrite nth_error_firstn in Hj.
    destruct (Nat.ltb_spec j k); [exact Hj|lia].
  - apply In_nth_error in H as [j Hj].
    rewrite nth_error_skipn in Hj.
    exists (S k + j). split; [lia|exact Hj].
Qed.

Lemma remove_nth_forallb {A} (f : A -> bool) (k : nat) (l : list A) :
  forallb f l = true -> forallb f (remove_nth k l) = true.
Proof.
  rewrite !forallb_forall. intros H x Hx.
  apply remove_nth_In in Hx as (j & _ & Hj).
  apply H. eapply nth_error_In; exact Hj.
Qed.

End CompleteCart.

(* ================================================================== *)
(** * CartPage: removing rows *)
(* ================================================================== *)

Section CartActions.

Variable app : App.

Lemma item_count_has_text (p : Page) :
  forallb has_text (rows p) = true -> item_count p = length (rows p).
Proof.
  unfold item_count. destruct (rows p) as [|r [|r' rs]]; try reflexivity.
  simpl. unfold has_text. rewrite andb_true_r.
  now destruct (blank_text _).
Qed.

Lemma well_rendered_inv (p : Page) :
  well_rendered p = true ->
  shows p "#page-wrapper" = true /\ shows p "#tbodyid" = true /\
  forallb complete (rows p) = true /\ forallb has_text (rows p) = true.
Proof.
  unfold well_rendered. intros H.
  apply andb_true_iff in H as [H H4].
  apply andb_true_iff in H as [H H3].
  apply andb_true_iff in H as [H1 H2]. auto.
Qed.

Lemma well_rendered_remove (p : Page) (k : nat) :
  well_rendered p = true ->
  well_rendered (with_rows p (remove_nth k (rows p))) = true.
Proof.
  intros H. apply well_rendered_inv in H as (H1 & H2 & H3 & H4).
  unfold well_rendered.
  change (shows (with_rows p (remove_nth k (rows p))) "#page-wrapper")
    with (shows p "#page-wrapper").
  change (shows (with_rows p (remove_nth k (rows p))) "#tbodyid")
    with (shows p "#tbodyid").
  rewrite H1, H2. cbn [rows with_rows andb].
  now rewrite !remove_nth_forallb.
Qed.

(** On a cart of deletable rows, a click on the [i]-th delete link of
    an application that deletes rows leaves the cart without its
    [i]-th row. *)
Lemma click_delete (w : World) (i : nat) :
  deletes_rows app ->
  forallb deletable (rows (page w)) = true ->
  i < length (rows (page w)) ->
  click app (nth CartPage.deleteButtons i) w
  = (Ok tt,
     {| page := with_rows (page w) (remove_nth i (rows (page w)));
        now := now w;
        log := (log w ++ [Click CartPage.deleteButtons i])%list;
        armed := armed w; captured := captured w |}).
Proof.
  intros Happ Hall Hi.
  destruct (nth_error (rows (page w)) i) as [r|] eqn:Hr;
    [|apply nth_error_None in Hr; lia].
  assert (Hdel : exists d, tr_delete r = Some d /\ el_visible d = true).
  { rewrite forallb_forall in Hall.
    specialize (Hall r (nth_error_In _ _ Hr)). unfold deletable in Hall.
    destruct (tr_delete r) as [d|]; [|discriminate]. now exists d. }
  destruct Hdel as (d & Hd & Hv).
  assert (Hsplit := firstn_skipn_middle i (rows (page w)) Hr).
  assert (Hlen : length (firstn i (rows (page w))) = i)
    by (apply firstn_length_le; lia).
  assert (Hnth : nth_error (cells tr_delete (rows (page w))) i = Some d).
  { rewrite <- Hsplit.
    rewrite <- (cells_nth tr_delete (firstn i (rows (page w)))
                  (skipn (S i) (rows (page w))) r d);
      [now rewrite Hlen| |exact Hd].
    apply forallb_forall. intros r' Hr'.
    assert (Hin : In r' (rows (page w))).
    { rewrite <- Hsplit. apply in_or_app. now left. }
    rewrite forallb_forall in Hall. specialize (Hall r' Hin).
    unfold deletable in Hall. now destruct (tr_delete r'). }
  unfold click, actionable, resolve. rewrite locate_deletes, Hnth, Hv.
  unfold perform. cbn [selector_of index_of].
  rewrite Happ, (remove_owner_complete _ _ Hall). reflexivity.
Qed.




End CartActions.

(* ================================================================== *)
(** * CartPage: emptying the cart *)
(* ================================================================== *)

Section EmptyingTheCart.

Variable app : App.
Hypothesis Happ : deletes_rows app.

Lemma item_count_nil (p : Page) : rows p = [] -> item_count p = 0.
Proof. unfold item_count. now intros ->. Qed.

(** One turn of the loop on a non-empty cart of deletable rows: the
    first row goes, four seconds pass, and the count is read again. *)
Lemma removeAllItems_body_step (w : World) (r : Tr) (rs : list Tr) :
  rows (page w) = r :: rs ->
  shows (page w) "#page-wrapper" = true ->
  forallb deletable (r :: rs) = true ->
  exists w',
    CartPage.removeAllItems_body app w = (Ok (item_count (page w')), w') /\
    page w' = with_rows (page w) rs /\
    log w' = (log w ++ [Click CartPage.deleteButtons 0])%list.
Proof.
  intros Hrows Hwrap Hall.
  unfold CartPage.removeAllItems_body.
  assert (Hclick := click_delete app w 0 Happ).
  rewrite Hrows in Hclick. specialize (Hclick Hall).
  unfold first. rewrite (bind_ok _ _ _ _ _ (Hclick ltac:(simpl; lia))).
  unfold bind at 1. cbn [waitForTimeout].
  rewrite getCartItemCount_rendered; [|exact Hwrap].
  match goal with |- exists w', (_, ?W) = _ /\ _ => exists W end.
  split; [reflexivity|]. now split.
Qed.

Lemma removeAllItems_while_terminates (rs : list Tr) :
  forall (w : World) (fuel : nat),
    rows (page w) = rs ->
    shows (page w) "#page-wrapper" = true ->
    forallb deletable rs = true ->
    length rs <= fuel ->
    exists w' k,
      CartPage.removeAllItems_while app fuel (item_count (page w)) w
      = Some (Ok tt, w') /\
      item_count (page w') = 0 /\
      shows (page w') "#page-wrapper" = true /\
      log w' = (log w ++ repeat (Click CartPage.deleteButtons 0) k)%list /\
      k <= length rs.
Proof.
  induction rs as [|r rs IH]; intros w fuel Hrows Hwrap Hall Hfuel.
  - exists w, 0. rewrite (item_count_nil _ Hrows).
    split; [now destruct fuel|].
    split; [reflexivity|].
    split; [exact Hwrap|]. split; [now rewrite app_nil_r|lia].
  - destruct (item_count (page w)) as [|c] eqn:Hc.
    + exists w, 0. split; [now destruct fuel|].
      split; [exact Hc|]. split; [exact Hwrap|].
      split; [now rewrite app_nil_r|lia].
    + destruct fuel as [|fuel]; [simpl in Hfuel; lia|].
      destruct (removeAllItems_body_step w r rs Hrows Hwrap Hall)
        as (w1 & Hbody & Hpage & Hlog).
      cbn [CartPage.removeAllItems_while Nat.ltb Nat.leb].
      rewrite Hbody.
      simpl in Hall. apply andb_true_iff in Hall as [_ Hall].
      destruct (IH w1 fuel) as (w' & k & Hrun & Hzero & Hwrap' & Hlog' & Hk).
      * now rewrite Hpage.
      * now rewrite Hpage.
      * exact Hall.
      * simpl in Hfuel. lia.
      * exists w', (S k). split; [exact Hrun|].
        split; [exact Hzero|]. split; [exact Hwrap'|].
        split; [|simpl; lia].
        rewrite Hlog', Hlog, <- app_assoc. reflexivity.
Qed.

(** C1, on the code. Against an application that answers every delete
    click by removing the row, [removeAllItems] on a rendered cart
    page whose rows all carry a visible delete link leaves its loop
    after at most as many turns as there are rows: it returns
    normally, [getCartItemCount] is then zero, and it has clicked the
    first delete link at most once per row and nothing else. *)
Theorem removeAllItems_terminates (w : World) (fuel : nat)
  (Hwrap : shows (page w) "#page-wrapper" = true)
  (Hlinks : forallb deletable (rows (page w)) = true)
  (Hfuel : length (rows (page w)) <= fuel) :
  exists w' k,
    CartPage.removeAllItems app fuel w = Some (Ok tt, w') /\
    fst (CartPage.getCartItemCount w') = Ok 0 /\
    log w' = (log w ++ repeat (Click CartPage.deleteButtons 0) k)%list /\
    k <= length (rows (page w)).
Proof.
  unfold CartPage.removeAllItems.
  rewrite (getCartItemCount_rendered w Hwrap).
  destruct (removeAllItems_while_terminates (rows (page w))
              (tick 3000 w) fuel eq_refl Hwrap Hlinks Hfuel)
    as (w' & k & Hrun & Hzero & Hwrap' & Hlog & Hk).
  exists w', k. split; [exact Hrun|].
  split; [|split; [exact Hlog|exact Hk]].
  rewrite (getCartItemCount_rendered w' Hwrap'). cbn [fst]. now rewrite Hzero.
Qed.

End EmptyingTheCart.

Lemma shop_deletes_rows (taken : list string) :
  deletes_rows (Shop.shop taken).
Proof. intros k p. reflexivity. Qed.

Lemma removeAllItems_terminates_witness :
  exists w' k,
    CartPage.removeAllItems (Shop.shop []) 2
      (opened Shop.two_row_cart)
    = Some (Ok tt, w') /\
    fst (CartPage.getCartItemCount w') = Ok 0 /\
    log w' = ([] ++ repeat (Click CartPage.deleteButtons 0) k)%list /\
    k <= 2.
Proof.
  apply (removeAllItems_terminates (Shop.shop []) (shop_deletes_rows [])
           (opened Shop.two_row_cart) 2 eq_refl eq_refl).
  simpl. lia.
Defined.

Lemma frozen_loop (fuel : nat) :
  forall w, page w = Shop.one_row_cart ->
            CartPage.removeAllItems_while Shop.frozen fuel 1 w = None.
Proof.
  induction fuel as [|fuel IH]; intros w Hw; [reflexivity|].
  cbn [CartPage.removeAllItems_while Nat.ltb Nat.leb].
  assert (Hbody : exists w',
             CartPage.removeAllItems_body Shop.frozen w = (Ok 1, w') /\
             page w' = Shop.one_row_cart).
  { unfold CartPage.removeAllItems_body, bind at 1, click, actionable, first,
      resolve. rewrite Hw. cbn -[bind waitForTimeout CartPage.getCartItemCount].
    unfold bind, waitForTimeout.
    rewrite getCartItemCount_rendered
      by (cbn [page tick perform]; unfold perform, Shop.frozen;
          cbn; rewrite Hw; reflexivity).
    eexists. split.
    - f_equal. f_equal. unfold perform, Shop.frozen. cbn. now rewrite Hw.
    - unfold perform, Shop.frozen. cbn. exact Hw. }
  destruct Hbody as (w' & -> & Hw'). now apply IH.
Qed.

(** C1, as stated, fails: the loop has no bound on its turns.  Against
    an application on which the delete click has no effect, no amount of
    fuel lets [removeAllItems] return on a cart of one row. *)
Lemma removeAllItems_no_iteration_guard :
  ~ exists fuel r,
      CartPage.removeAllItems Shop.frozen fuel (opened Shop.one_row_cart)
      = Some r.
Proof.
  intros (fuel & r & H).
  unfold CartPage.removeAllItems in H.
  rewrite getCartItemCount_rendered in H by reflexivity.
  change (item_count (page (opened Shop.one_row_cart))) with 1 in H.
  rewrite frozen_loop in H by reflexivity. discriminate.
Qed.

(* ================================================================== *)
(** * The theorems at work on sample pages *)
(* ================================================================== *)

Lemma getCartItems_twice_witness :
  fst (CartPage.getCartItems
         (snd (CartPage.getCartItems (opened Shop.two_row_cart))))
  = Ok [ {| CartPage.name := "Sony vaio i5"; CartPage.price := "790" |};
         {| CartPage.name := "Samsung galaxy s6"; CartPage.price := "360" |} ].
Proof.
  destruct (getCartItems_twice (opened Shop.two_row_cart)) as (H & _).
  cbv zeta in H. rewrite H. reflexivity.
Defined.

Lemma verifyItemInCart_containment_witness :
  fst (CartPage.verifyItemInCart "galaxy" (opened Shop.two_row_cart))
  = Ok true /\
  fst (CartPage.removeItemByName (Shop.shop []) "galaxy"
         (opened Shop.two_row_cart))
  = Throw (JsError (CartPage.not_found_message "galaxy")).
Proof.
  destruct (verifyItemInCart_containment (Shop.shop [])
              (opened Shop.two_row_cart)
              (tick 3000 (opened Shop.two_row_cart))
              [ {| CartPage.name := "Sony vaio i5"; CartPage.price := "790" |};
                {| CartPage.name := "Samsung galaxy s6";
                   CartPage.price := "360" |} ]
              "galaxy" eq_refl)
    as ((b & Hrun & Hb) & Hremove).
  split.
  - rewrite Hrun. cbn [fst]. f_equal. apply Hb.
    exists {| CartPage.name := "Samsung galaxy s6"; CartPage.price := "360" |},
      "Samsung ", " s6".
    split; [right; left; reflexivity|reflexivity].
  - apply Hremove. intros it [<-|[<-|[]]]; discriminate.
Defined.

Lemma verifyTotalPrice_tolerance_witness :
  fst (CartPage.calculateExpectedTotal (opened Shop.two_row_cart))
  = Ok 1150%float /\
  fst (CartPage.verifyTotalPrice (opened Shop.two_row_cart)) = Ok true.
Proof.
  destruct (verifyTotalPrice_tolerance
              (opened Shop.two_row_cart)
              (tick 3000 (opened Shop.two_row_cart))
              (tick 3000 (opened Shop.two_row_cart))
              [ {| CartPage.name := "Sony vaio i5"; CartPage.price := "790" |};
                {| CartPage.name := "Samsung galaxy s6";
                   CartPage.price := "360" |} ]
              "1150" eq_refl eq_refl)
    as (Hsum & Hrun & _).
  split.
  - rewrite Hsum. reflexivity.
  - rewrite Hrun. reflexivity.
Defined.

(** C3, as stated, fails: a difference of exactly 0.01 is within the
    tolerance, yet the check is strict and rejects it.  Nor is the
    check one on the amounts as they are displayed: the difference is
    a rounded binary64 difference, so of two totals that are one cent
    above the sum, one is accepted and the other rejected. *)
Lemma verifyTotalPrice_rejects_a_cent :
  fst (CartPage.calculateExpectedTotal (opened Store.one_cent_cart))
  = Ok 0%float /\
  PrimFloat.abs (0 - CartPage.parse_price "0.01")%float
  = 0x1.47ae147ae147bp-7%float /\
  fst (CartPage.verifyTotalPrice (opened Store.one_cent_cart)) = Ok false /\
  fst (CartPage.verifyTotalPrice (opened Store.cent_above_100)) = Ok true /\
  fst (CartPage.verifyTotalPrice (opened Store.cent_above_1)) = Ok false.
Proof. repeat split; vm_compute; reflexivity. Qed.

Lemma signUp_classifies_dialog_witness :
  (fst (AuthenticationPage.attemptSignUpWithExistingUser
          (Shop.shop ["sathish_demo_user"]) "sathish_demo_user" "secret"
          (opened Shop.signup_page))
   = Ok "This user already exist." /\
   fst (AuthenticationPage.signUp
          (Shop.shop ["sathish_demo_user"]) "sathish_demo_user" "secret"
          (opened Shop.signup_page))
   = Ok false) /\
  (fst (AuthenticationPage.attemptSignUpWithExistingUser
          (Shop.shop ["sathish_demo_user"]) "new_user" "secret"
          (opened Shop.signup_page))
   = Ok "Sign up successful." /\
   fst (AuthenticationPage.signUp
          (Shop.shop ["sathish_demo_user"]) "new_user" "secret"
          (opened Shop.signup_page))
   = Ok true).
Proof.
  split.
  - pose proof (signUp_classifies_dialog
                  (Shop.shop ["sathish_demo_user"])
                  "sathish_demo_user" "secret"
                  (opened Shop.signup_page)
                  (snd (fillSignUpForm "sathish_demo_user" "secret"
                          (opened Shop.signup_page)))
                  (Shop.shown "Sign up")
                  (page (snd (fillSignUpForm "sathish_demo_user" "secret"
                                (opened Shop.signup_page))))
                  (Some "This user already exist.")
                  eq_refl eq_refl eq_refl eq_refl) as H.
    cbv zeta in H. destruct H as (_ & Hattempt & Hreject & _).
    split.
    + rewrite Hattempt. reflexivity.
    + rewrite Hreject; [reflexivity|].
      intros Hs. apply includes_iff in Hs. discriminate.
  - pose proof (signUp_classifies_dialog
                  (Shop.shop ["sathish_demo_user"]) "new_user" "secret"
                  (opened Shop.signup_page)
                  (snd (fillSignUpForm "new_user" "secret"
                          (opened Shop.signup_page)))
                  (Shop.shown "Sign up")
                  _ (Some "Sign up successful.")
                  eq_refl eq_refl eq_refl eq_refl) as H.
    cbv zeta in H. destruct H as (_ & Hattempt & _ & Haccept & _).
    split.
    + rewrite Hattempt. reflexivity.
    + rewrite Haccept; [reflexivity| |reflexivity].
      now exists EmptyString, ".".
Defined.

(** C4, as stated, fails: a dialog text that contains the success
    substring does not make [signUp] report success when the modal is
    still open; the call throws, while [attemptSignUpWithExistingUser]
    returns that very text. *)
Lemma signUp_throws_on_open_modal :
  fst (AuthenticationPage.attemptSignUpWithExistingUser
         Store.lingering "new_user" "secret" (opened Shop.signup_page))
  = Ok "Sign up successful." /\
  JS.includes "Sign up successful." "Sign up successful" = true /\
  fst (AuthenticationPage.signUp
         Store.lingering "new_user" "secret" (opened Shop.signup_page))
  = Throw (ExpectError AuthenticationPage.signUpModal).
Proof. repeat split; vm_compute; reflexivity. Qed.



(* ================================================================== *)
(** * Filling forms *)
(* ================================================================== *)

Section FillingForms.

Lemma lookup_set_visible (sel sel' v : string) (d : list (string * Element)) :
  forall k,
    map el_visible (lookup_all sel' (set_value sel k v d))
    = map el_visible (lookup_all sel' d).
Proof.
  unfold lookup_all. induction d as [|[key e] d IH]; intros k; simpl.
  - reflexivity.
  - destruct (String.eqb key sel) eqn:E.
    + destruct k as [|k]; simpl; destruct (String.eqb key sel'); simpl;
        try rewrite IH; reflexivity.
    + simpl. destruct (String.eqb key sel'); simpl; now rewrite IH.
Qed.

Lemma lookup_set_other (sel sel' v : string) (d : list (string * Element)) :
  String.eqb sel' sel = false ->
  forall k, lookup_all sel' (set_value sel k v d) = lookup_all sel' d.
Proof.
  intros Hne. unfold lookup_all.
  induction d as [|[key e] d IH]; intros k; simpl.
  - reflexivity.
  - destruct (String.eqb key sel) eqn:E.
    + apply String.eqb_eq in E. subst key.
      rewrite String.eqb_sym in Hne.
      destruct k as [|k]; simpl; rewrite Hne; [reflexivity|apply IH].
    + simpl. destruct (String.eqb key sel'); simpl; now rewrite IH.
Qed.

Lemma lookup_set_same (sel v : string) (d : list (string * Element)) :
  lookup_all sel (set_value sel 0 v d)
  = match lookup_all sel d with
    | e :: l => {| el_visible := el_visible e; el_text := el_text e;
                   el_value := kept e v; el_breaks := el_breaks e |} :: l
    | [] => []
    end.
Proof.
  unfold lookup_all. induction d as [|[key e] d IH]; simpl.
  - reflexivity.
  - destruct (String.eqb key sel) eqn:E; simpl; rewrite E; simpl.
    + reflexivity.
    + exact IH.
Qed.

Lemma locate_dom (sel : string) (p : Page) :
  is_table_selector sel = false -> locate sel p = lookup_all sel (dom p).
Proof.
  unfold is_table_selector, locate. intros H.
  apply orb_false_iff in H as [H H4].
  apply orb_false_iff in H as [H H3].
  apply orb_false_iff in H as [H1 H2].
  now rewrite H1, H2, H3, H4.
Qed.

Lemma locate_with_value_visible (p : Page) (sel sel' v : string) :
  map el_visible (locate sel' (with_value p sel v))
  = map el_visible (locate sel' p).
Proof.
  unfold locate, with_value. cbn [rows dom].
  repeat match goal with |- context [if ?b then _ else _] => destruct b end;
    try reflexivity.
  apply lookup_set_visible.
Qed.

Lemma uniquely_shows_visible (p : Page) (sel : string) :
  uniquely_shows p sel
  = match map el_visible (locate sel p) with [b] => b | _ => false end.
Proof.
  unfold uniquely_shows. now destruct (locate sel p) as [|e [|e' l]].
Qed.

(** Filling one control shows and hides nothing. *)
Lemma uniquely_shows_with_value (p : Page) (sel sel' v : string) :
  uniquely_shows (with_value p sel v) sel' = uniquely_shows p sel'.
Proof.
  now rewrite !uniquely_shows_visible, locate_with_value_visible.
Qed.

(** Filling one control leaves the value of every other one alone. *)
Lemma input_value_other (p : Page) (sel sel' v : string) :
  String.eqb sel' sel = false ->
  input_value (with_value p sel v) sel' = input_value p sel'.
Proof.
  intros Hne. unfold input_value, locate, with_value. cbn [rows dom].
  repeat match goal with |- context [if ?b then _ else _] => destruct b end;
    try reflexivity.
  now rewrite lookup_set_other.
Qed.

Lemma kept_single_line (e : Element) (v : string) :
  single_line v = true -> kept e v = v.
Proof. unfold kept. now intros ->. Qed.

(** A control that is filled with a text without line breaks holds
    that text. *)
Lemma input_value_same (p : Page) (sel v : string) :
  is_table_selector sel = false ->
  uniquely_shows p sel = true ->
  single_line v = true ->
  input_value (with_value p sel v) sel = Some v.
Proof.
  intros Ht Hu Hv. unfold input_value, uniquely_shows in *.
  rewrite locate_dom in * by exact Ht. cbn [dom with_value].
  rewrite lookup_set_same.
  destruct (lookup_all sel (dom p)) as [|e [|e' l]]; try discriminate.
  cbn [el_value]. now rewrite kept_single_line.
Qed.

Lemma uniquely_shows_filled (w : World) (sel sel' v : string) :
  uniquely_shows (page (filled w sel v)) sel' = uniquely_shows (page w) sel'.
Proof. apply uniquely_shows_with_value. Qed.

Lemma fill_ready (w : World) (sel v : string) :
  is_table_selector sel = false ->
  uniquely_shows (page w) sel = true ->
  fill (locator sel) v w = (Ok tt, filled w sel v).
Proof.
  intros Ht Hu. unfold fill, actionable, resolve, uniquely_shows in *.
  destruct (locate sel (page w)) as [|e [|e' l]]; try discriminate.
  rewrite Hu. cbn [selector_of index_of]. now rewrite Ht.
Qed.

Lemma inputValue_unique (w : World) (sel v : string) :
  input_value (page w) sel = Some v ->
  inputValue (locator sel) w = (Ok v, w).
Proof.
  unfold input_value, inputValue, bind, attached, resolve, ret.
  destruct (locate sel (page w)) as [|e [|e' l]]; try discriminate.
  now intros [= <-].
Qed.

Lemma expect_toBeVisible_unique (w : World) (sel : string) (t : N) :
  uniquely_shows (page w) sel = true ->
  expect_toBeVisible (locator sel) t w = (Ok tt, w).
Proof.
  unfold uniquely_shows, expect_toBeVisible, resolve.
  destruct (locate sel (page w)) as [|e [|e' l]]; try discriminate.
  simpl. now intros ->.
Qed.

Lemma expect_toBeVisible_fails (w : World) (sel : string) (t : N) :
  uniquely_shows (page w) sel = false ->
  exists e dt, expect_toBeVisible (locator sel) t w = (Throw e, tick dt w).
Proof.
  unfold uniquely_shows, expect_toBeVisible, resolve.
  destruct (locate sel (page w)) as [|e [|e' l]]; simpl.
  - intros _. now exists (ExpectError sel), t.
  - intros ->. now exists (ExpectError sel), t.
  - intros _. exists (StrictModeViolation sel), 0%N. now rewrite tick_0.
Qed.

(** [await locator.textContent() || ''] on the one element [sel]
    denotes. *)
Lemma read_text_unique {A} (w : World) (sel : string) (k : string -> M A) :
  uniquely_shows (page w) sel = true ->
  bind (textContent (locator sel)) (fun t => k (JS.or_empty t)) w
  = k (text_of (page w) sel) w.
Proof.
  unfold uniquely_shows, textContent, bind, attached, resolve, text_of, ret.
  now destruct (locate sel (page w)) as [|e [|e' l]].
Qed.

End FillingForms.

(* ================================================================== *)
(** * ContactPage: the form *)
(* ================================================================== *)

Section ContactForm.

Lemma contact_form_ready_inv (p : Page) :
  contact_form_ready p = true ->
  uniquely_shows p ContactPage.contactModal = true /\
  uniquely_shows p ContactPage.emailInput = true /\
  uniquely_shows p ContactPage.nameInput = true /\
  uniquely_shows p ContactPage.messageInput = true.
Proof.
  unfold contact_form_ready. intros H.
  apply andb_true_iff in H as [H H4].
  apply andb_true_iff in H as [H H3].
  apply andb_true_iff in H as [H1 H2]. auto.
Qed.

(** The world after the three fields were filled in turn. *)
Lemma three_fills (w : World) (e n m : string) :
  uniquely_shows (page w) ContactPage.emailInput = true ->
  uniquely_shows (page w) ContactPage.nameInput = true ->
  uniquely_shows (page w) ContactPage.messageInput = true ->
  bind (fill (locator ContactPage.emailInput) e)
    (fun _ => bind (fill (locator ContactPage.nameInput) n)
                (fun _ => fill (locator ContactPage.messageInput) m)) w
  = (Ok tt,
     filled (filled (filled w ContactPage.emailInput e)
               ContactPage.nameInput n) ContactPage.messageInput m).
Proof.
  intros He Hn Hm.
  rewrite (bind_ok _ _ _ _ _
             (fill_ready w ContactPage.emailInput e eq_refl He)).
  assert (Hn' : uniquely_shows
                  (page (filled w ContactPage.emailInput e))
                  ContactPage.nameInput = true)
    by now rewrite uniquely_shows_filled.
  rewrite (bind_ok _ _ _ _ _
             (fill_ready _ ContactPage.nameInput n eq_refl Hn')).
  apply fill_ready; [reflexivity|].
  now rewrite !uniquely_shows_filled.
Qed.

(** The three fields of a form that was filled with [e], [n], [m]. *)
Lemma three_values (p : Page) (e n m : string) :
  uniquely_shows p ContactPage.emailInput = true ->
  uniquely_shows p ContactPage.nameInput = true ->
  uniquely_shows p ContactPage.messageInput = true ->
  single_line e = true -> single_line n = true -> single_line m = true ->
  let p' := with_value (with_value (with_value p ContactPage.emailInput e)
                          ContactPage.nameInput n)
              ContactPage.messageInput m in
  input_value p' ContactPage.emailInput = Some e /\
  input_value p' ContactPage.nameInput = Some n /\
  input_value p' ContactPage.messageInput = Some m.
Proof.
  intros He Hn Hm Se Sn Sm p'. subst p'. repeat split.
  - rewrite !input_value_other by reflexivity.
    now apply input_value_same.
  - rewrite input_value_other by reflexivity.
    apply input_value_same; [reflexivity| |exact Sn].
    now rewrite uniquely_shows_with_value.
  - apply input_value_same; [reflexivity| |exact Sm].
    now rewrite !uniquely_shows_with_value.
Qed.

Lemma getFormData_values (w : World) (e n m : string) :
  input_value (page w) ContactPage.emailInput = Some e ->
  input_value (page w) ContactPage.nameInput = Some n ->
  input_value (page w) ContactPage.messageInput = Some m ->
  ContactPage.getFormData w
  = (Ok {| ContactPage.email := e; ContactPage.name := n;
           ContactPage.message := m |}, w).
Proof.
  intros He Hn Hm. unfold ContactPage.getFormData.
  rewrite (bind_ok _ _ _ _ _ (inputValue_unique w _ e He)).
  rewrite (bind_ok _ _ _ _ _ (inputValue_unique w _ n Hn)).
  now rewrite (bind_ok _ _ _ _ _ (inputValue_unique w _ m Hm)).
Qed.

Lemma contact_form_ready_with (p : Page) (d : ContactPage.ContactFormData) :
  contact_form_ready (contact_form_with p d) = contact_form_ready p.
Proof.
  unfold contact_form_ready, contact_form_with.
  now rewrite !uniquely_shows_with_value.
Qed.

Lemma single_line_data_inv (d : ContactPage.ContactFormData) :
  single_line_data d = true ->
  single_line (ContactPage.email d) = true /\
  single_line (ContactPage.name d) = true /\
  single_line (ContactPage.message d) = true.
Proof.
  unfold single_line_data. intros H.
  apply andb_true_iff in H as [H H3].
  apply andb_true_iff in H as [H1 H2]. auto.
Qed.

Lemma fillContactForm_run (w : World) (d : ContactPage.ContactFormData) :
  contact_form_ready (page w) = true ->
  ContactPage.fillContactForm d w
  = (Ok tt,
     filled (filled (filled w ContactPage.emailInput (ContactPage.email d))
               ContactPage.nameInput (ContactPage.name d))
       ContactPage.messageInput (ContactPage.message d)).
Proof.
  intros H. destruct (contact_form_ready_inv _ H) as (Hmodal & He & Hn & Hm).
  unfold ContactPage.fillContactForm, ContactPage.waitForContactModal.
  unfold bind at 1. unfold bind at 1.
  rewrite (expect_toBeVisible_unique w _ _ Hmodal).
  rewrite (expect_toBeVisible_unique w _ _ He).
  now apply three_fills.
Qed.

(** X1. With the contact modal open, [fillContactForm d] types each of
    the three values into its own input, in the order email, name,
    message, and sends nothing else to the browser; when no value has a
    line break, [getFormData] afterwards returns [d]. *)
Theorem fillContactForm_getFormData (w : World)
  (d : ContactPage.ContactFormData)
  (Hready : contact_form_ready (page w) = true) :
  exists w',
    ContactPage.fillContactForm d w = (Ok tt, w') /\
    (single_line_data d = true ->
     ContactPage.getFormData w' = (Ok d, w')) /\
    page w' = contact_form_with (page w) d /\
    log w' = (log w ++ [ Fill ContactPage.emailInput 0 (ContactPage.email d);
                        Fill ContactPage.nameInput 0 (ContactPage.name d);
                        Fill ContactPage.messageInput 0
                          (ContactPage.message d) ])%list.
Proof.
  destruct (contact_form_ready_inv _ Hready) as (_ & He & Hn & Hm).
  exists (filled (filled (filled w ContactPage.emailInput
                            (ContactPage.email d))
                    ContactPage.nameInput (ContactPage.name d))
            ContactPage.messageInput (ContactPage.message d)).
  split; [now apply fillContactForm_run|].
  split; [|split].
  - intros Hlines. destruct (single_line_data_inv _ Hlines) as (Se & Sn & Sm).
    destruct (three_values (page w) (ContactPage.email d)
                (ContactPage.name d) (ContactPage.message d)
                He Hn Hm Se Sn Sm) as (H1 & H2 & H3).
    rewrite (getFormData_values
               (filled (filled (filled w ContactPage.emailInput
                                  (ContactPage.email d))
                          ContactPage.nameInput (ContactPage.name d))
                  ContactPage.messageInput (ContactPage.message d))
               _ _ _ H1 H2 H3).
    now destruct d.
  - reflexivity.
  - cbn [log filled]. now rewrite <- !app_assoc.
Qed.

End ContactForm.

Lemma fillContactForm_getFormData_witness :
  exists w',
    ContactPage.fillContactForm
      {| ContactPage.email := "a@b.c"; ContactPage.name := "Ann";
         ContactPage.message := "Hi" |}
      (opened Store.contact_modal_page) = (Ok tt, w') /\
    ContactPage.getFormData w'
    = (Ok {| ContactPage.email := "a@b.c"; ContactPage.name := "Ann";
             ContactPage.message := "Hi" |}, w').
Proof.
  destruct (fillContactForm_getFormData (opened Store.contact_modal_page)
              {| ContactPage.email := "a@b.c"; ContactPage.name := "Ann";
                 ContactPage.message := "Hi" |} eq_refl)
    as (w' & Hfill & Hget & _).
  exists w'. split; [exact Hfill|exact (Hget eq_refl)].
Defined.

(** A name over two lines is not read back from a single-line input,
    whereas a multi-line input, as the message is, keeps its line
    break. *)
Example fillContactForm_line_break :
  fst (ContactPage.getFormData
         (snd (ContactPage.fillContactForm
                 {| ContactPage.email := "a@b.c";
                    ContactPage.name := Store.two_line_name;
                    ContactPage.message := Store.two_line_name |}
                 (opened Store.contact_modal_page))))
  = Ok {| ContactPage.email := "a@b.c"; ContactPage.name := "Ann Lee";
          ContactPage.message := Store.two_line_name |}.
Proof. reflexivity. Qed.

(* ================================================================== *)
(** * Submitting forms *)
(* ================================================================== *)

Section Submitting.

Variable app : App.

Lemma fill_bind {A} (w : World) (sel v : string) (k : unit -> M A) :
  is_table_selector sel = false ->
  uniquely_shows (page w) sel = true ->
  bind (fill (locator sel) v) k w = k tt (filled w sel v).
Proof.
  intros Ht Hu. now rewrite (bind_ok _ _ _ _ _ (fill_ready w sel v Ht Hu)).
Qed.

Lemma bind_fails {A B} (m : M A) (k : A -> M B) (w w' : World)
  (e : Error) :
  m w = (Throw e, w') -> bind m k w = (Throw e, w').
Proof. intros H. unfold bind. now rewrite H. Qed.

Lemma expect_toBeVisible_bind {A} (w : World) (sel : string) (t : N)
  (k : unit -> M A) :
  uniquely_shows (page w) sel = true ->
  bind (expect_toBeVisible (locator sel) t) k w = k tt w.
Proof.
  intros Hu.
  now rewrite (bind_ok _ _ _ _ _ (expect_toBeVisible_unique w sel t Hu)).
Qed.

(** Arm the observer, click the button, wait two seconds, read the
    message: the text of the dialog the application raised comes back,
    the empty string if it raised none. *)
Lemma submit_and_capture (w : World) (btn : string) (p' : Page)
  (dlg : option string) :
  uniquely_shows (page w) btn = true ->
  app btn 0 (page w) = (p', dlg) ->
  bind once_dialog
    (fun _ => bind (click app (locator btn))
                (fun _ => bind (waitForTimeout 2000)
                            (fun _ => alertMessage))) w
  = (Ok (dialog_text dlg), submitted w btn p' dlg).
Proof.
  intros Hu Happ.
  unfold bind at 1, once_dialog. unfold bind at 1, click, actionable, resolve.
  cbn [page]. unfold uniquely_shows in Hu.
  destruct (locate btn (page w)) as [|e [|e' l]]; try discriminate.
  rewrite Hu. unfold perform. cbn [page armed selector_of index_of].
  rewrite Happ. unfold submitted.
  destruct dlg as [m|]; reflexivity.
Qed.

End Submitting.

(* ================================================================== *)
(** * ContactPage: clearing, validating, sending *)
(* ================================================================== *)

Section ContactSending.

Variable app : App.

Lemma contact_inputs_ready_inv (p : Page) :
  contact_inputs_ready p = true ->
  uniquely_shows p ContactPage.emailInput = true /\
  uniquely_shows p ContactPage.nameInput = true /\
  uniquely_shows p ContactPage.messageInput = true.
Proof.
  unfold contact_inputs_ready. intros H.
  apply andb_true_iff in H as [H H3].
  apply andb_true_iff in H as [H1 H2]. auto.
Qed.

Lemma contact_form_inputs (p : Page) :
  contact_form_ready p = true -> contact_inputs_ready p = true.
Proof.
  intros H. destruct (contact_form_ready_inv _ H) as (_ & H1 & H2 & H3).
  unfold contact_inputs_ready. now rewrite H1, H2, H3.
Qed.

Lemma contact_filled_spec (w : World) (d : ContactPage.ContactFormData) :
  contact_inputs_ready (page w) = true ->
  (single_line_data d = true ->
   ContactPage.getFormData (contact_filled w d)
   = (Ok d, contact_filled w d)) /\
  (forall sel, uniquely_shows (page (contact_filled w d)) sel
               = uniquely_shows (page w) sel) /\
  page (contact_filled w d) = contact_form_with (page w) d.
Proof.
  intros H. destruct (contact_inputs_ready_inv _ H) as (He & Hn & Hm).
  split; [|split].
  - intros Hlines. destruct (single_line_data_inv _ Hlines) as (Se & Sn & Sm).
    destruct (three_values (page w) (ContactPage.email d)
                (ContactPage.name d) (ContactPage.message d)
                He Hn Hm Se Sn Sm) as (H1 & H2 & H3).
    rewrite (getFormData_values (contact_filled w d) _ _ _ H1 H2 H3).
    now destruct d.
  - intros sel. unfold contact_filled. now rewrite !uniquely_shows_filled.
  - reflexivity.
Qed.

Lemma clearForm_run (w : World) :
  contact_inputs_ready (page w) = true ->
  ContactPage.clearForm w = (Ok tt, contact_filled w no_data).
Proof.
  intros H. destruct (contact_inputs_ready_inv _ H) as (He & Hn & Hm).
  unfold ContactPage.clearForm, clear. now apply three_fills.
Qed.

(** What [verifyFormValidation] returns on a form holding [e], [n], [m]. *)
Lemma verifyFormValidation_values (w : World) (e n m : string) :
  input_value (page w) ContactPage.emailInput = Some e ->
  input_value (page w) ContactPage.nameInput = Some n ->
  input_value (page w) ContactPage.messageInput = Some m ->
  exists v,
    ContactPage.verifyFormValidation w = (Ok v, w) /\
    ContactPage.errors v = violated_rules e n m /\
    (ContactPage.isValid v = true <-> violated_rules e n m = []).
Proof.
  intros He Hn Hm. eexists. split.
  { unfold ContactPage.verifyFormValidation.
    rewrite (bind_ok _ _ _ _ _ (inputValue_unique w _ e He)).
    rewrite (bind_ok _ _ _ _ _ (inputValue_unique w _ n Hn)).
    rewrite (bind_ok _ _ _ _ _ (inputValue_unique w _ m Hm)).
    reflexivity. }
  cbn [ContactPage.isValid ContactPage.errors].
  unfold violated_rules, ContactPage.check.
  rewrite !truthy_eqb, !negb_involutive.
  destruct (String.eqb e EmptyString), (String.eqb n EmptyString),
    (String.eqb m EmptyString), (JS.includes e "@"); simpl;
    split; try reflexivity; split; congruence.
Qed.

(** X2. With the three inputs on display, whatever they held,
    [clearForm] leaves a form that [isFormEmpty] reports empty, that
    [getFormData] reads as three empty strings, and on which
    [verifyFormValidation] reports exactly the three "required" errors;
    it does so by three fills of the empty string. *)
Theorem clearForm_then_empty (w : World)
  (Hready : contact_inputs_ready (page w) = true) :
  exists w',
    ContactPage.clearForm w = (Ok tt, w') /\
    ContactPage.isFormEmpty w' = (Ok true, w') /\
    ContactPage.getFormData w' = (Ok no_data, w') /\
    ContactPage.verifyFormValidation w'
    = (Ok {| ContactPage.isValid := false;
             ContactPage.errors := [ "Email is required";
                                     "Name is required";
                                     "Message is required" ] |}, w') /\
    log w' = (log w ++ [ Fill ContactPage.emailInput 0 EmptyString;
                        Fill ContactPage.nameInput 0 EmptyString;
                        Fill ContactPage.messageInput 0 EmptyString ])%list.
Proof.
  exists (contact_filled w no_data).
  destruct (contact_filled_spec w no_data Hready) as (Hget & _ & _).
  specialize (Hget eq_refl).
  split; [now apply clearForm_run|].
  split; [|split; [exact Hget|split]].
  - unfold ContactPage.isFormEmpty.
    now rewrite (bind_ok _ _ _ _ _ Hget).
  - destruct (contact_inputs_ready_inv _ Hready) as (He & Hn & Hm).
    destruct (three_values (page w) EmptyString EmptyString EmptyString
                He Hn Hm eq_refl eq_refl eq_refl) as (H1 & H2 & H3).
    unfold ContactPage.verifyFormValidation.
    rewrite (bind_ok _ _ _ _ _
               (inputValue_unique (contact_filled w no_data) _ _ H1)).
    rewrite (bind_ok _ _ _ _ _
               (inputValue_unique (contact_filled w no_data) _ _ H2)).
    rewrite (bind_ok _ _ _ _ _
               (inputValue_unique (contact_filled w no_data) _ _ H3)).
    reflexivity.
  - unfold contact_filled. cbn [log filled ContactPage.email
      ContactPage.name ContactPage.message no_data].
    now rewrite <- !app_assoc.
Qed.

(** X3. With the contact modal open, and data without line breaks,
    validating the form right after [fillContactForm d] reports the
    rules that [d] itself violates: [errors] is the list of violated
    rules of the data filled in, and [isValid] holds exactly when that
    list is empty. *)
Theorem fillContactForm_then_validate (w : World)
  (d : ContactPage.ContactFormData)
  (Hready : contact_form_ready (page w) = true)
  (Hlines : single_line_data d = true) :
  exists w' v,
    ContactPage.fillContactForm d w = (Ok tt, w') /\
    ContactPage.verifyFormValidation w' = (Ok v, w') /\
    ContactPage.errors v
    = violated_rules (ContactPage.email d) (ContactPage.name d)
        (ContactPage.message d) /\
    (ContactPage.isValid v = true <-> ContactPage.errors v = []).
Proof.
  destruct (contact_form_ready_inv _ Hready) as (_ & He & Hn & Hm).
  destruct (single_line_data_inv _ Hlines) as (Se & Sn & Sm).
  destruct (three_values (page w) (ContactPage.email d) (ContactPage.name d)
              (ContactPage.message d) He Hn Hm Se Sn Sm) as (H1 & H2 & H3).
  destruct (verifyFormValidation_values (contact_filled w d) _ _ _ H1 H2 H3)
    as (v & Hrun & Herr & Hvalid).
  exists (contact_filled w d), v.
  split; [now apply fillContactForm_run|].
  split; [exact Hrun|]. split; [exact Herr|]. now rewrite Herr.
Qed.

(** X4. With the contact modal open and its send button on display,
    [sendMessage d] clicks the button on the form as the three fills
    left it, which reads as [d] when no value has a line break, and
    returns the text of the dialog the application answers with (the
    empty string if it raises none), without judging it; the browser
    has received the three fills and one click. *)
Theorem sendMessage_returns_dialog (w : World)
  (d : ContactPage.ContactFormData) (p' : Page) (dlg : option string)
  (Hready : contact_form_ready (page w) = true)
  (Hbutton : uniquely_shows (page w) ContactPage.sendMessageButton = true)
  (Happ : app ContactPage.sendMessageButton 0 (contact_form_with (page w) d)
          = (p', dlg)) :
  exists w',
    ContactPage.sendMessage app d w = (Ok (dialog_text dlg), w') /\
    page w' = p' /\
    (single_line_data d = true ->
     fst (ContactPage.getFormData (opened (contact_form_with (page w) d)))
     = Ok d) /\
    log w' = (log w ++ [ Fill ContactPage.emailInput 0 (ContactPage.email d);
                        Fill ContactPage.nameInput 0 (ContactPage.name d);
                        Fill ContactPage.messageInput 0
                          (ContactPage.message d);
                        Click ContactPage.sendMessageButton 0 ])%list.
Proof.
  pose proof (contact_form_inputs _ Hready) as Hinputs.
  destruct (contact_filled_spec w d Hinputs) as (_ & Hshow & Hpage).
  exists (submitted (contact_filled w d) ContactPage.sendMessageButton p' dlg).
  split; [|split; [reflexivity|split]].
  - unfold ContactPage.sendMessage.
    rewrite (bind_ok _ _ _ _ _ (fillContactForm_run w d Hready)).
    apply submit_and_capture; [now rewrite Hshow|now rewrite Hpage].
  - intros Hlines.
    change (opened (contact_form_with (page w) d))
      with (opened (page (contact_filled (opened (page w)) d))).
    destruct (contact_inputs_ready_inv _ Hinputs) as (He & Hn & Hm).
    destruct (single_line_data_inv _ Hlines) as (Se & Sn & Sm).
    destruct (three_values (page w) (ContactPage.email d)
                (ContactPage.name d) (ContactPage.message d)
                He Hn Hm Se Sn Sm)
      as (H1 & H2 & H3).
    rewrite (getFormData_values
               (opened (page (contact_filled (opened (page w)) d)))
               _ _ _ H1 H2 H3).
    now destruct d.
  - unfold submitted, contact_filled. cbn [log filled].
    now rewrite <- !app_assoc.
Qed.

End ContactSending.

Lemma clearForm_then_empty_witness :
  exists w',
    ContactPage.clearForm (opened Store.contact_modal_page) = (Ok tt, w') /\
    ContactPage.isFormEmpty w' = (Ok true, w').
Proof.
  destruct (clearForm_then_empty (opened Store.contact_modal_page) eq_refl)
    as (w' & Hclear & Hempty & _).
  exists w'. now split.
Defined.

Lemma fillContactForm_then_validate_witness :
  exists w' v,
    ContactPage.fillContactForm
      {| ContactPage.email := "invalid-email-format";
         ContactPage.name := EmptyString;
         ContactPage.message := EmptyString |}
      (opened Store.contact_modal_page) = (Ok tt, w') /\
    ContactPage.verifyFormValidation w' = (Ok v, w') /\
    ContactPage.errors v
    = [ "Name is required"; "Message is required"; "Invalid email format" ].
Proof.
  destruct (fillContactForm_then_validate
              (opened Store.contact_modal_page)
              {| ContactPage.email := "invalid-email-format";
                 ContactPage.name := EmptyString;
                 ContactPage.message := EmptyString |} eq_refl eq_refl)
    as (w' & v & Hfill & Hrun & Herr & _).
  exists w', v. split; [exact Hfill|]. split; [exact Hrun|exact Herr].
Defined.

Lemma sendMessage_returns_dialog_witness :
  exists w',
    ContactPage.sendMessage (Store.store [])
      {| ContactPage.email := "a@b.c"; ContactPage.name := "Ann";
         ContactPage.message := "Hi" |}
      (opened Store.contact_modal_page)
    = (Ok "Thanks for the message!!", w').
Proof.
  destruct (sendMessage_returns_dialog (Store.store [])
              (opened Store.contact_modal_page)
              {| ContactPage.email := "a@b.c"; ContactPage.name := "Ann";
                 ContactPage.message := "Hi" |}
              _ (Some "Thanks for the message!!") eq_refl eq_refl eq_refl)
    as (w' & Hrun & _).
  exists w'. exact Hrun.
Defined.

Section PartialForms.

Variable app : App.

Lemma fill_if_given_spec (w : World) (sel : string) (o : option string) :
  is_table_selector sel = false ->
  uniquely_shows (page w) sel = true ->
  input_value (page w) sel = Some EmptyString ->
  single_line (JS.or_empty o) = true ->
  exists w',
    ContactPage.fill_if_given sel o w = (Ok tt, w') /\
    input_value (page w') sel = Some (JS.or_empty o) /\
    (forall sel', String.eqb sel' sel = false ->
                  input_value (page w') sel' = input_value (page w) sel') /\
    (forall sel', uniquely_shows (page w') sel'
                  = uniquely_shows (page w) sel') /\
    log w' = (log w ++ fill_of sel o)%list.
Proof.
  intros Ht Hu Hv Hs. unfold ContactPage.fill_if_given, fill_of.
  destruct o as [v|]; [destruct v as [|c v]|].
  - exists w. cbn. rewrite app_nil_r. auto.
  - exists (filled w sel (String c v)).
    split; [now apply fill_ready|]. cbn [JS.or_empty JS.truthy].
    split; [now apply input_value_same|].
    split; [intros sel' Hne; now apply input_value_other|].
    split; [intros sel'; apply uniquely_shows_filled|reflexivity].
  - exists w. cbn. rewrite app_nil_r. auto.
Qed.

(** X5. With the contact modal open and its send button on display,
    and a partial form whose fields have no line breaks,
    [sendPartialForm d] first clears the three inputs and then fills
    only the fields of [d] that are present and non-empty.  So the form
    the application is handed reads as [d] with every absent or empty
    field empty, whatever the form held before; the call returns the
    text of the dialog the application answers with. *)
Theorem sendPartialForm_fills_given (w : World)
  (d : ContactPage.PartialContactFormData)
  (Hready : contact_form_ready (page w) = true)
  (Hbutton : uniquely_shows (page w) ContactPage.sendMessageButton = true)
  (Hlines : single_line_data (given d) = true) :
  exists w0,
    ContactPage.getFormData w0 = (Ok (given d), w0) /\
    log w0
    = (log w ++ [ Fill ContactPage.emailInput 0 EmptyString;
                 Fill ContactPage.nameInput 0 EmptyString;
                 Fill ContactPage.messageInput 0 EmptyString ]
         ++ fill_of ContactPage.emailInput (ContactPage.email_opt d)
         ++ fill_of ContactPage.nameInput (ContactPage.name_opt d)
         ++ fill_of ContactPage.messageInput (ContactPage.message_opt d))%list
    /\
    forall p' dlg,
      app ContactPage.sendMessageButton 0 (page w0) = (p', dlg) ->
      ContactPage.sendPartialForm app d w
      = (Ok (dialog_text dlg),
         submitted w0 ContactPage.sendMessageButton p' dlg).
Proof.
  pose proof (contact_form_inputs _ Hready) as Hinputs.
  destruct (contact_form_ready_inv _ Hready) as (Hmodal & He & Hn & Hm).
  destruct (contact_filled_spec w no_data Hinputs) as (_ & Hshow & _).
  destruct (three_values (page w) EmptyString EmptyString EmptyString
              He Hn Hm eq_refl eq_refl eq_refl) as (V1 & V2 & V3).
  destruct (single_line_data_inv _ Hlines) as (Se & Sn & Sm).
  cbn [given ContactPage.email ContactPage.name ContactPage.message]
    in Se, Sn, Sm.
  set (wc := contact_filled w no_data).
  destruct (fill_if_given_spec wc ContactPage.emailInput
              (ContactPage.email_opt d) eq_refl)
    as (w1 & R1 & A1 & O1 & S1 & L1);
    [unfold wc; now rewrite Hshow|exact V1|exact Se|].
  destruct (fill_if_given_spec w1 ContactPage.nameInput
              (ContactPage.name_opt d) eq_refl)
    as (w2 & R2 & A2 & O2 & S2 & L2);
    [now rewrite S1; unfold wc; rewrite Hshow
    |now rewrite O1 by reflexivity|exact Sn|].
  destruct (fill_if_given_spec w2 ContactPage.messageInput
              (ContactPage.message_opt d) eq_refl)
    as (w3 & R3 & A3 & O3 & S3 & L3);
    [now rewrite S2, S1; unfold wc; rewrite Hshow
    |now rewrite O2, O1 by reflexivity|exact Sm|].
  exists w3. split; [|split].
  - apply getFormData_values.
    + now rewrite O3, O2 by reflexivity.
    + now rewrite O3 by reflexivity.
    + exact A3.
  - rewrite L3, L2, L1. unfold wc, contact_filled.
    cbn [log filled ContactPage.email ContactPage.name ContactPage.message
           no_data].
    now rewrite <- !app_assoc.
  - intros p' dlg Happ.
    unfold ContactPage.sendPartialForm, ContactPage.waitForContactModal.
    unfold bind at 1. unfold bind at 1.
    rewrite (expect_toBeVisible_unique w _ _ Hmodal).
    rewrite (expect_toBeVisible_unique w _ _ He).
    rewrite (bind_ok _ _ _ _ _ (clearForm_run w Hinputs)). fold wc.
    rewrite (bind_ok _ _ _ _ _ R1), (bind_ok _ _ _ _ _ R2),
      (bind_ok _ _ _ _ _ R3).
    apply submit_and_capture; [|exact Happ].
    now rewrite S3, S2, S1; unfold wc; rewrite Hshow.
Qed.

End PartialForms.

Lemma sendPartialForm_fills_given_witness :
  exists w0,
    ContactPage.getFormData w0
    = (Ok {| ContactPage.email := "a@b.c"; ContactPage.name := EmptyString;
             ContactPage.message := EmptyString |}, w0) /\
    log w0 = [ Fill ContactPage.emailInput 0 EmptyString;
               Fill ContactPage.nameInput 0 EmptyString;
               Fill ContactPage.messageInput 0 EmptyString;
               Fill ContactPage.emailInput 0 "a@b.c" ].
Proof.
  destruct (sendPartialForm_fills_given (Store.store [])
              (opened Store.contact_modal_page)
              {| ContactPage.email_opt := Some "a@b.c";
                 ContactPage.name_opt := None;
                 ContactPage.message_opt := Some EmptyString |}
              eq_refl eq_refl eq_refl)
    as (w0 & Hget & Hlog & _).
  exists w0. split; [exact Hget|exact Hlog].
Defined.

(* ================================================================== *)
(** * CartPage: the order form *)
(* ================================================================== *)

Section OrderForm.

Lemma order_form_ready_inv (p : Page) :
  order_form_ready p = true ->
  uniquely_shows p CartPage.nameInput = true /\
  uniquely_shows p CartPage.countryInput = true /\
  uniquely_shows p CartPage.cityInput = true /\
  uniquely_shows p CartPage.creditCardInput = true /\
  uniquely_shows p CartPage.monthInput = true /\
  uniquely_shows p CartPage.yearInput = true.
Proof.
  unfold order_form_ready. intros H.
  repeat (apply andb_true_iff in H as [H ?]). auto 10.
Qed.

(** X6. With the six inputs of the order modal on display,
    [fillOrderForm] types the six fields of the order into them without
    checking any: the browser receives the six fills in the order name,
    country, city, card, month, year, and when no field has a line
    break, each input afterwards holds its field as it is, empty or
    ill-formed values included. *)
Theorem fillOrderForm_verbatim (w : World) (d : CartPage.OrderDetails)
  (Hready : order_form_ready (page w) = true) :
  exists w',
    CartPage.fillOrderForm d w = (Ok tt, w') /\
    (single_line_order d = true ->
     input_value (page w') CartPage.nameInput
     = Some (CartPage.order_name d) /\
     input_value (page w') CartPage.countryInput
     = Some (CartPage.country d) /\
     input_value (page w') CartPage.cityInput = Some (CartPage.city d) /\
     input_value (page w') CartPage.creditCardInput
     = Some (CartPage.creditCard d) /\
     input_value (page w') CartPage.monthInput = Some (CartPage.month d) /\
     input_value (page w') CartPage.yearInput = Some (CartPage.year d)) /\
    log w' = (log w ++ [ Fill CartPage.nameInput 0 (CartPage.order_name d);
                        Fill CartPage.countryInput 0 (CartPage.country d);
                        Fill CartPage.cityInput 0 (CartPage.city d);
                        Fill CartPage.creditCardInput 0
                          (CartPage.creditCard d);
                        Fill CartPage.monthInput 0 (CartPage.month d);
                        Fill CartPage.yearInput 0 (CartPage.year d) ])%list.
Proof.
  destruct (order_form_ready_inv _ Hready) as (H1 & H2 & H3 & H4 & H5 & H6).
  eexists. split.
  { unfold CartPage.fillOrderForm.
    rewrite expect_toBeVisible_bind by exact H1.
    rewrite fill_bind; [|reflexivity|exact H1].
    rewrite fill_bind;
      [|reflexivity|now rewrite ?uniquely_shows_filled].
    rewrite fill_bind;
      [|reflexivity|now rewrite ?uniquely_shows_filled].
    rewrite fill_bind;
      [|reflexivity|now rewrite ?uniquely_shows_filled].
    rewrite fill_bind;
      [|reflexivity|now rewrite ?uniquely_shows_filled].
    apply fill_ready; [reflexivity|now rewrite ?uniquely_shows_filled]. }
  cbn [page filled log].
  split; [|now rewrite <- !app_assoc].
  intros Hlines. unfold single_line_order in Hlines.
  repeat (apply andb_true_iff in Hlines as [Hlines ?]).
  repeat split;
    (rewrite ?input_value_other by reflexivity;
     apply input_value_same;
     [reflexivity|now rewrite ?uniquely_shows_with_value|assumption]).
Qed.

End OrderForm.

Lemma fillOrderForm_verbatim_witness :
  exists w',
    CartPage.fillOrderForm Store.customer (opened Store.order_modal_page)
    = (Ok tt, w') /\
    input_value (page w') CartPage.creditCardInput = Some "4111111111111111".
Proof.
  destruct (fillOrderForm_verbatim (opened Store.order_modal_page)
              Store.customer eq_refl)
    as (w' & Hrun & Hvalues & _).
  destruct (Hvalues eq_refl) as (_ & _ & _ & Hcard & _).
  exists w'. split; [exact Hrun|exact Hcard].
Defined.

(* ================================================================== *)
(** * Removing a marker from a text *)
(* ================================================================== *)

Section RemoveFirst.

Lemma remove_first_unfold (s pat : string) :
  JS.remove_first s pat
  = if JS.startsWith s pat then JS.drop (String.length pat) s
    else match s with
         | EmptyString => EmptyString
         | String c s' => String c (JS.remove_first s' pat)
         end.
Proof. now destruct s. Qed.

Lemma drop_app (p rest : string) : JS.drop (String.length p) (p ++ rest) = rest.
Proof. induction p as [|a p IH]; simpl; [now destruct rest|exact IH]. Qed.

(** A text that begins with the marker loses that occurrence. *)
Lemma remove_first_prefix (p rest : string) :
  JS.remove_first (p ++ rest) p = rest.
Proof. now rewrite remove_first_unfold, startsWith_app, drop_app. Qed.

(** The first occurrence is the one removed: a stretch of text that
    does not hold the first character of the marker is skipped. *)
Lemma remove_first_after (a : ascii) (pat pre tail : string) :
  free_of a pre = true ->
  JS.remove_first (pre ++ tail) (String a pat)
  = pre ++ JS.remove_first tail (String a pat).
Proof.
  intros H. induction pre as [|c pre IH]; [reflexivity|].
  simpl in H. apply andb_true_iff in H as [Hc Hpre].
  change (String c pre ++ tail) with (String c (pre ++ tail)).
  rewrite remove_first_unfold.
  cbn [JS.startsWith]. rewrite Ascii.eqb_sym.
  apply negb_true_iff in Hc. rewrite Hc. cbn [andb].
  now rewrite (IH Hpre).
Qed.

Lemma remove_first_skip (a : ascii) (pat pre post : string) :
  free_of a pre = true ->
  JS.remove_first (pre ++ (String a pat ++ post)) (String a pat)
  = pre ++ post.
Proof.
  intros H. rewrite (remove_first_after a pat pre _ H).
  now rewrite (remove_first_prefix (String a pat) post).
Qed.

(** A text without the first character of the marker is left alone. *)
Lemma remove_first_absent (a : ascii) (pat s : string) :
  free_of a s = true -> JS.remove_first s (String a pat) = s.
Proof.
  intros H. induction s as [|c s IH]; [reflexivity|].
  simpl in H. apply andb_true_iff in H as [Hc Hs].
  rewrite remove_first_unfold. cbn [JS.startsWith]. rewrite Ascii.eqb_sym.
  apply negb_true_iff in Hc. rewrite Hc. cbn [andb].
  now rewrite (IH Hs).
Qed.

End RemoveFirst.

(* ================================================================== *)
(** * AuthenticationPage: the session *)
(* ================================================================== *)

Section Session.

Variable app : App.

Lemma isLoggedIn_shown (w : World) :
  uniquely_shows (page w) AuthenticationPage.welcomeMessage = true ->
  AuthenticationPage.isLoggedIn w = (Ok true, w).
Proof.
  intros H. unfold AuthenticationPage.isLoggedIn, try_catch, bind.
  now rewrite (expect_toBeVisible_unique w _ _ H).
Qed.

Lemma isLoggedIn_not_shown (w : World) :
  uniquely_shows (page w) AuthenticationPage.welcomeMessage = false ->
  exists dt, AuthenticationPage.isLoggedIn w = (Ok false, tick dt w).
Proof.
  intros H. destruct (observes_isLoggedIn w) as [dt Hdt].
  exists dt. now rewrite Hdt, H.
Qed.

Lemma getWelcomeMessage_shown (w : World) :
  uniquely_shows (page w) AuthenticationPage.welcomeMessage = true ->
  AuthenticationPage.getWelcomeMessage w
  = (Ok (text_of (page w) AuthenticationPage.welcomeMessage), w).
Proof.
  intros H. unfold AuthenticationPage.getWelcomeMessage.
  rewrite (bind_ok _ _ _ _ _ (isLoggedIn_shown w H)).
  now rewrite read_text_unique.
Qed.

Lemma getLoggedInUsername_logged_out (w : World) :
  uniquely_shows (page w) AuthenticationPage.welcomeMessage = false ->
  exists w',
    AuthenticationPage.getLoggedInUsername w = (Ok EmptyString, w') /\
    page w' = page w /\ log w' = log w.
Proof.
  intros Hno. destruct (isLoggedIn_not_shown w Hno) as [dt Hdt].
  exists (tick dt w). split; [|now split].
  unfold AuthenticationPage.getLoggedInUsername,
    AuthenticationPage.getWelcomeMessage.
  unfold bind at 1. now rewrite (bind_ok _ _ _ _ _ Hdt).
Qed.

(** X7. [getLoggedInUsername] undoes the greeting: when the welcome
    message is on display and reads "Welcome " followed by [u], it
    returns [u] trimmed, also when [u] itself contains "Welcome ",
    because only the first occurrence is removed; when no welcome
    message is on display it returns the empty string instead of
    failing.  In neither case is anything sent to the browser. *)
Theorem getLoggedInUsername_undoes_greeting (w : World) :
  (forall u,
     uniquely_shows (page w) AuthenticationPage.welcomeMessage = true ->
     text_of (page w) AuthenticationPage.welcomeMessage = "Welcome " ++ u ->
     AuthenticationPage.getLoggedInUsername w = (Ok (JS.trim u), w)) /\
  (uniquely_shows (page w) AuthenticationPage.welcomeMessage = false ->
   exists w',
     AuthenticationPage.getLoggedInUsername w = (Ok EmptyString, w') /\
     page w' = page w /\ log w' = log w).
Proof.
  split.
  - intros u Hshown Htext. unfold AuthenticationPage.getLoggedInUsername.
    rewrite (bind_ok _ _ _ _ _ (getWelcomeMessage_shown w Hshown)).
    unfold ret. rewrite Htext.
    now rewrite (remove_first_prefix "Welcome " u).
  - apply getLoggedInUsername_logged_out.
Qed.

(** X8. [verifyLoginSuccess expected] passes exactly when the welcome
    message is on display, its text contains [expected] as a substring,
    and the logout button is on display.  The name is compared by
    containment, so the empty name, or any part of the greeting, is
    accepted. *)
Theorem verifyLoginSuccess_iff (w : World) (expected : string) :
  fst (AuthenticationPage.verifyLoginSuccess expected w) = Ok tt <->
  uniquely_shows (page w) AuthenticationPage.welcomeMessage = true /\
  JS.includes (text_of (page w) AuthenticationPage.welcomeMessage) expected
  = true /\
  uniquely_shows (page w) AuthenticationPage.logoutButton = true.
Proof.
  unfold AuthenticationPage.verifyLoginSuccess.
  destruct (uniquely_shows (page w) AuthenticationPage.welcomeMessage)
    eqn:Hwelcome.
  - rewrite expect_toBeVisible_bind by exact Hwelcome.
    rewrite (bind_ok _ _ _ _ _ (getWelcomeMessage_shown w Hwelcome)).
    unfold bind at 1, expect_toContain.
    destruct (JS.includes _ expected).
    + destruct (uniquely_shows (page w) AuthenticationPage.logoutButton)
        eqn:Hlogout.
      * rewrite (expect_toBeVisible_unique w _ _ Hlogout). tauto.
      * destruct (expect_toBeVisible_fails w _ expectTimeout Hlogout)
          as (e & dt & ->).
        cbn [fst]. split; [discriminate|]. intros (_ & _ & H). discriminate.
    + cbn [fst]. split; [discriminate|]. intros (_ & H & _). discriminate.
  - destruct (expect_toBeVisible_fails w _ expectTimeout Hwelcome)
      as (e & dt & Hfail).
    rewrite (bind_fails _ _ _ _ _ Hfail).
    cbn [fst]. split; [discriminate|]. intros (H & _). discriminate.
Qed.

End Session.

(* ================================================================== *)
(** * AuthenticationPage: logging in *)
(* ================================================================== *)

Section LoggingIn.

Variable app : App.

Lemma login_form_ready_inv (p : Page) :
  login_form_ready p = true ->
  uniquely_shows p AuthenticationPage.loginModal = true /\
  uniquely_shows p AuthenticationPage.loginUsernameInput = true /\
  uniquely_shows p AuthenticationPage.loginPasswordInput = true /\
  uniquely_shows p AuthenticationPage.loginButton = true.
Proof.
  unfold login_form_ready. intros H.
  repeat (apply andb_true_iff in H as [H ?]). auto.
Qed.

(** A click on the one visible element [btn] denotes, when no observer
    is armed: the page becomes what the application renders. *)
Lemma click_unique (w : World) (btn : string) (p' : Page)
  (dlg : option string) :
  uniquely_shows (page w) btn = true ->
  app btn 0 (page w) = (p', dlg) ->
  exists w',
    click app (locator btn) w = (Ok tt, w') /\
    page w' = p' /\ log w' = (log w ++ [Click btn 0])%list.
Proof.
  intros Hu Happ. unfold click, actionable, resolve, uniquely_shows in *.
  destruct (locate btn (page w)) as [|e [|e' l]]; try discriminate.
  rewrite Hu. eexists. split; [reflexivity|].
  unfold perform. cbn [selector_of index_of]. rewrite Happ.
  destruct dlg, (armed w); now split.
Qed.

Lemma expect_toBeHidden_run (w : World) (sel : string) :
  (hidden_or_absent (page w) sel = true ->
   expect_toBeHidden (locator sel) w = (Ok tt, w)) /\
  (hidden_or_absent (page w) sel = false ->
   exists e dt, expect_toBeHidden (locator sel) w = (Throw e, tick dt w)).
Proof.
  unfold hidden_or_absent, expect_toBeHidden.
  destruct (resolve (locator sel) (page w)) as [o|e].
  - destruct (is_visible o); split; intros H; try discriminate.
    + now exists (ExpectError (selector_of (locator sel))), expectTimeout.
    + reflexivity.
  - split; [discriminate|]. intros _. exists e, 0%N. now rewrite tick_0.
Qed.

(** The probe for the welcome message that ends [login] never fails. *)
Lemma welcome_probe_total (w : World) :
  exists dt,
    try_catch
      (expect_toBeVisible (locator AuthenticationPage.welcomeMessage) 5000)
      (fun _ => ret tt) w
    = (Ok tt, tick dt w).
Proof.
  unfold try_catch, expect_toBeVisible, ret.
  destruct (resolve _ (page w)) as [o|e].
  - destruct (is_visible o).
    + exists 0%N. now rewrite tick_0.
    + now exists 5000%N.
  - exists 0%N. now rewrite tick_0.
Qed.

Lemma login_prefix {A} (w : World) (username password : string)
  (k : unit -> M A) :
  login_form_ready (page w) = true ->
  bind AuthenticationPage.waitForLoginModal
    (fun _ =>
       bind (fill (locator AuthenticationPage.loginUsernameInput) username)
         (fun _ =>
            bind (fill (locator AuthenticationPage.loginPasswordInput)
                    password) k)) w
  = k tt (filled (filled w AuthenticationPage.loginUsernameInput username)
            AuthenticationPage.loginPasswordInput password).
Proof.
  intros H. destruct (login_form_ready_inv _ H) as (Hm & Hu & Hp & Hb).
  unfold AuthenticationPage.waitForLoginModal.
  unfold bind at 1. unfold bind at 1.
  rewrite (expect_toBeVisible_unique w _ _ Hm).
  rewrite (expect_toBeVisible_unique w _ _ Hu).
  rewrite fill_bind; [|reflexivity|exact Hu].
  rewrite fill_bind; [|reflexivity|now rewrite uniquely_shows_filled].
  reflexivity.
Qed.

(** X9. With the login modal open, the outcome of [login] is decided by
    the modal alone.  If the page the application renders in answer to
    the click no longer shows the modal, [login] returns normally
    whether or not a welcome message appears; if the modal is still on
    display, as after a rejected password, [login] throws.  Either way
    the browser has received two fills and one click. *)
Theorem login_decided_by_modal (w : World) (username password : string)
  (p' : Page) (dlg : option string)
  (Hready : login_form_ready (page w) = true)
  (Happ : app AuthenticationPage.loginButton 0
            (login_form_with (page w) username password) = (p', dlg)) :
  exists r w',
    AuthenticationPage.login app username password w = (r, w') /\
    page w' = p' /\
    log w' = (log w
              ++ [ Fill AuthenticationPage.loginUsernameInput 0 username;
                   Fill AuthenticationPage.loginPasswordInput 0 password;
                   Click AuthenticationPage.loginButton 0 ])%list /\
    (hidden_or_absent p' AuthenticationPage.loginModal = true -> r = Ok tt) /\
    (hidden_or_absent p' AuthenticationPage.loginModal = false ->
     exists e, r = Throw e).
Proof.
  destruct (login_form_ready_inv _ Hready) as (_ & _ & _ & Hb).
  unfold AuthenticationPage.login. rewrite login_prefix by exact Hready.
  set (w0 := filled (filled w AuthenticationPage.loginUsernameInput username)
               AuthenticationPage.loginPasswordInput password).
  destruct (click_unique w0 AuthenticationPage.loginButton p' dlg)
    as (w1 & Hclick & Hpage & Hlog);
    [unfold w0; now rewrite !uniquely_shows_filled|exact Happ|].
  rewrite (bind_ok _ _ _ _ _ Hclick).
  assert (Hlog' : log w1
                  = (log w
                     ++ [ Fill AuthenticationPage.loginUsernameInput 0
                            username;
                          Fill AuthenticationPage.loginPasswordInput 0
                            password;
                          Click AuthenticationPage.loginButton 0 ])%list).
  { rewrite Hlog. unfold w0. cbn [log filled]. now rewrite <- !app_assoc. }
  destruct (expect_toBeHidden_run w1 AuthenticationPage.loginModal)
    as [Hhid Hvis].
  rewrite Hpage in Hhid, Hvis.
  destruct (hidden_or_absent p' AuthenticationPage.loginModal).
  - rewrite (bind_ok _ _ _ _ _ (Hhid eq_refl)).
    destruct (welcome_probe_total w1) as [dt ->].
    exists (Ok tt), (tick dt w1). repeat split; try assumption.
    discriminate.
  - destruct (Hvis eq_refl) as (e & dt & Hfail).
    rewrite (bind_fails _ _ _ _ _ Hfail).
    exists (Throw e), (tick dt w1). repeat split; try assumption.
    + discriminate.
    + intros _. now exists e.
Qed.

(** X10. With the login modal open, [attemptLoginWithInvalidCredentials]
    returns the text of the dialog the application raises in answer to
    the click, and the empty string when it raises none, as it does on
    accepted credentials; it asserts nothing about the modal, so it
    returns normally in both cases. *)
Theorem attemptLogin_returns_dialog (w : World) (username password : string)
  (p' : Page) (dlg : option string)
  (Hready : login_form_ready (page w) = true)
  (Happ : app AuthenticationPage.loginButton 0
            (login_form_with (page w) username password) = (p', dlg)) :
  exists w',
    AuthenticationPage.attemptLoginWithInvalidCredentials
      app username password w = (Ok (dialog_text dlg), w') /\
    page w' = p' /\
    log w' = (log w
              ++ [ Fill AuthenticationPage.loginUsernameInput 0 username;
                   Fill AuthenticationPage.loginPasswordInput 0 password;
                   Click AuthenticationPage.loginButton 0 ])%list.
Proof.
  destruct (login_form_ready_inv _ Hready) as (_ & _ & _ & Hb).
  unfold AuthenticationPage.attemptLoginWithInvalidCredentials.
  rewrite login_prefix by exact Hready.
  rewrite (submit_and_capture app _ AuthenticationPage.loginButton p' dlg);
    [|now rewrite !uniquely_shows_filled|exact Happ].
  eexists. split; [reflexivity|]. split; [reflexivity|].
  unfold submitted. cbn [log filled]. now rewrite <- !app_assoc.
Qed.

End LoggingIn.

Lemma getLoggedInUsername_undoes_greeting_witness :
  AuthenticationPage.getLoggedInUsername (opened Shop.logged_in_page)
  = (Ok "sathish", opened Shop.logged_in_page).
Proof.
  destruct (getLoggedInUsername_undoes_greeting (opened Shop.logged_in_page))
    as [H _].
  apply (H "sathish"); reflexivity.
Defined.

Lemma verifyLoginSuccess_iff_witness :
  fst (AuthenticationPage.verifyLoginSuccess EmptyString
         (opened Shop.logged_in_page)) = Ok tt.
Proof.
  apply verifyLoginSuccess_iff. repeat split.
Defined.

Lemma login_decided_by_modal_witness :
  exists r w',
    AuthenticationPage.login (Store.store [("ann", "secret")]) "ann" "wrong"
      (opened Store.login_page) = (r, w') /\
    exists e, r = Throw e.
Proof.
  destruct (login_decided_by_modal (Store.store [("ann", "secret")])
              (opened Store.login_page) "ann" "wrong"
              _ (Some "Wrong password.") eq_refl eq_refl)
    as (r & w' & Hrun & _ & _ & _ & Hthrow).
  exists r, w'. split; [exact Hrun|]. apply Hthrow. reflexivity.
Defined.

Lemma attemptLogin_returns_dialog_witness :
  exists w',
    AuthenticationPage.attemptLoginWithInvalidCredentials
      (Store.store [("ann", "secret")]) "ann" "wrong"
      (opened Store.login_page) = (Ok "Wrong password.", w').
Proof.
  destruct (attemptLogin_returns_dialog (Store.store [("ann", "secret")])
              (opened Store.login_page) "ann" "wrong"
              _ (Some "Wrong password.") eq_refl eq_refl)
    as (w' & Hrun & _).
  exists w'. exact Hrun.
Defined.

(* ================================================================== *)
(** * HomePage: category filter *)
(* ================================================================== *)

Section CategoryFilter.

Variable app : App.

(** A click followed by the wait for the product cards fails, if it
    does, with a driver error, and sends at most the click. *)
Lemma click_then_cards (sel : string) (w : World) :
  let run := bind (click app (locator sel))
               (fun _ => waitForSelector HomePage.productCards 5000) w in
  (forall msg, fst run <> Throw (JsError msg)) /\
  (log (snd run) = log w \/
   log (snd run) = (log w ++ [Click sel 0])%list).
Proof.
  unfold bind, click, actionable, resolve, waitForSelector.
  destruct (locate sel (page w)) as [|e [|e' l]]; cbn.
  - split; [discriminate|now left].
  - destruct (el_visible e); cbn.
    + unfold perform. destruct (app sel 0 (page w)) as [p' d].
      destruct d, (armed w); cbn;
        destruct (is_visible _); cbn; split; try discriminate; now right.
    + split; [discriminate|now left].
  - split; [discriminate|now left].
Qed.

Lemma known_category_cases (c : string) :
  known_category c = true ->
  c = "Phones" \/ c = "Laptops" \/ c = "Monitors".
Proof.
  unfold known_category. intros H.
  apply orb_true_iff in H as [H|H]; [apply orb_true_iff in H as [H|H]|];
    apply String.eqb_eq in H; auto.
Qed.

(** X11. [selectProductCategory] rejects every category other than
    "Phones", "Laptops" and "Monitors" with the error "Invalid
    category: ..." before anything is sent to the browser; for the three
    names it never raises that error and sends at most one click, on the
    link of that category.  [filterByCategory] is the same script. *)
Theorem selectProductCategory_rejects_unknown (w : World) (c : string) :
  HomePage.filterByCategory app c w = HomePage.selectProductCategory app c w
  /\
  (known_category c = false ->
   HomePage.selectProductCategory app c w
   = (Throw (JsError (HomePage.invalid_category_message c)), w)) /\
  (known_category c = true ->
   (forall msg,
      fst (HomePage.selectProductCategory app c w) <> Throw (JsError msg)) /\
   (log (snd (HomePage.selectProductCategory app c w)) = log w \/
    log (snd (HomePage.selectProductCategory app c w))
    = (log w ++ [Click (category_link c) 0])%list)).
Proof.
  split; [reflexivity|]. split.
  - unfold known_category, HomePage.selectProductCategory. intros H.
    apply orb_false_iff in H as [H H3].
    apply orb_false_iff in H as [H1 H2].
    now rewrite H1, H2, H3.
  - intros H.
    destruct (known_category_cases c H) as [ -> | [ -> | -> ] ];
      [apply (click_then_cards HomePage.phonesCategory w)
      |apply (click_then_cards HomePage.laptopsCategory w)
      |apply (click_then_cards HomePage.monitorsCategory w)].
Qed.

End CategoryFilter.

Lemma selectProductCategory_rejects_unknown_witness :
  HomePage.selectProductCategory (Store.store []) "Tablets"
    (opened Store.home_page)
  = (Throw (JsError "Invalid category: Tablets"), opened Store.home_page) /\
  log (snd (HomePage.selectProductCategory (Store.store []) "Laptops"
              (opened Store.home_page)))
  = [Click HomePage.laptopsCategory 0].
Proof.
  destruct (selectProductCategory_rejects_unknown (Store.store [])
              (opened Store.home_page) "Tablets") as (_ & Hbad & _).
  split; [exact (Hbad eq_refl)|reflexivity].
Defined.

(* ================================================================== *)
(** * CartPage: what the queries agree on *)
(* ================================================================== *)

Section CartAgreement.

(** X12. On a well rendered cart page the two ways of counting agree:
    [getCartItems] returns one line per row, [getCartItemCount] returns
    the number of those lines, and [isCartEmpty] holds exactly when
    there is none. *)
Theorem cart_queries_agree (w : World)
  (Hwell : well_rendered (page w) = true) :
  exists items,
    fst (CartPage.getCartItems w) = Ok items /\
    items = map line_of (rows (page w)) /\
    fst (CartPage.getCartItemCount w) = Ok (length items) /\
    fst (CartPage.isCartEmpty w) = Ok (Nat.eqb (length items) 0).
Proof.
  destruct (well_rendered_inv _ Hwell) as (Hwrap & Hbody & Hall & Htext).
  exists (map line_of (rows (page w))).
  assert (Hcount : CartPage.getCartItemCount w
                   = (Ok (length (map line_of (rows (page w)))),
                      tick 3000 w)).
  { rewrite (getCartItemCount_rendered w Hwrap).
    now rewrite (item_count_has_text _ Htext), length_map. }
  split; [now rewrite (getCartItems_complete w Hbody Hall)|].
  split; [reflexivity|]. split; [now rewrite Hcount|].
  unfold CartPage.isCartEmpty. now rewrite (bind_ok _ _ _ _ _ Hcount).
Qed.

(** X13. [isCartEmpty] never throws, and it answers [true] exactly when
    the page wrapper is not on display, or the table has no row, or it
    has a single row whose text is blank.  In particular a page without
    [#page-wrapper] is reported as an empty cart whatever its table
    holds. *)
Theorem isCartEmpty_iff (w : World) :
  (exists b, fst (CartPage.isCartEmpty w) = Ok b) /\
  (fst (CartPage.isCartEmpty w) = Ok true <->
   shows (page w) "#page-wrapper" = false \/
   rows (page w) = [] \/
   exists r, rows (page w) = [r] /\
             blank_text (el_text (tr_row r)) = true).
Proof.
  unfold CartPage.isCartEmpty.
  destruct (shows (page w) "#page-wrapper") eqn:Hwrap.
  - rewrite (bind_ok _ _ _ _ _ (getCartItemCount_rendered w Hwrap)).
    cbn [fst ret]. split; [eexists; reflexivity|].
    unfold item_count.
    destruct (rows (page w)) as [|r [|r' rs]]; cbn.
    + split; auto.
    + destruct (blank_text (el_text (tr_row r))) eqn:Hb; cbn.
      * split; [|reflexivity]. intros _. right. right. now exists r.
      * split; [discriminate|].
        intros [H|[H|(r0 & Hr & H)]]; try discriminate.
        injection Hr as <-. congruence.
    + split; [discriminate|].
      intros [H|[H|(r0 & H & _)]]; discriminate.
  - rewrite (bind_ok _ _ _ _ _ (getCartItemCount_not_rendered w Hwrap)).
    cbn [fst ret]. split; [eexists; reflexivity|]. split; auto.
Qed.

Lemma includes_empty (s : string) : JS.includes s EmptyString = true.
Proof. apply includes_iff. now exists EmptyString, s. Qed.

(** X14. An empty query is found in every cart that has a line, and in
    no other: [verifyItemInCart ""] returns [true] exactly when
    [getCartItems] returns a non-empty sequence. *)
Theorem verifyItemInCart_empty_query (w w1 : World)
  (items : list CartPage.CartItem)
  (Hread : CartPage.getCartItems w = (Ok items, w1)) :
  CartPage.verifyItemInCart EmptyString w
  = (Ok (negb (Nat.eqb (length items) 0)), w1).
Proof.
  unfold CartPage.verifyItemInCart. rewrite (bind_ok _ _ _ _ _ Hread).
  unfold ret, JS.some. destruct items as [|it items]; [reflexivity|].
  cbn [existsb length Nat.eqb negb]. now rewrite includes_empty.
Qed.

End CartAgreement.

Lemma cart_queries_agree_witness :
  fst (CartPage.getCartItemCount (opened Shop.two_row_cart)) = Ok 2 /\
  fst (CartPage.isCartEmpty (opened Shop.two_row_cart)) = Ok false.
Proof.
  destruct (cart_queries_agree (opened Shop.two_row_cart) eq_refl)
    as (items & _ & -> & Hcount & Hempty).
  split; [exact Hcount|exact Hempty].
Defined.

Lemma isCartEmpty_iff_witness :
  fst (CartPage.isCartEmpty (opened Store.stray_rows_page)) = Ok true.
Proof.
  apply (isCartEmpty_iff (opened Store.stray_rows_page)).
  left. reflexivity.
Defined.

Lemma verifyItemInCart_empty_query_witness :
  fst (CartPage.verifyItemInCart EmptyString (opened Shop.two_row_cart))
  = Ok true.
Proof.
  rewrite (verifyItemInCart_empty_query (opened Shop.two_row_cart)
             (tick 3000 (opened Shop.two_row_cart))
             [ {| CartPage.name := "Sony vaio i5"; CartPage.price := "790" |};
               {| CartPage.name := "Samsung galaxy s6";
                  CartPage.price := "360" |} ] eq_refl).
  reflexivity.
Defined.

(* ================================================================== *)
(** * CartPage: parsing prices *)
(* ================================================================== *)

Section PriceParsing.

Lemma digits_and_dots_app (a b : string) :
  digits_and_dots (a ++ b) = digits_and_dots a ++ digits_and_dots b.
Proof.
  induction a as [|c a IH]; [reflexivity|].
  cbn [append digits_and_dots].
  destruct (JS.is_digit c || Ascii.eqb c "."); cbn [append]; now rewrite IH.
Qed.

Lemma digits_and_dots_junk (j : string) :
  junk j = true -> digits_and_dots j = EmptyString.
Proof.
  induction j as [|c j IH]; [reflexivity|].
  cbn [junk digits_and_dots]. unfold JS.not_digit_or_dot.
  intros H. apply andb_true_iff in H as [Hc Hj].
  apply negb_true_iff in Hc. rewrite Hc. now apply IH.
Qed.

Lemma parse_price_strip (s : string) :
  CartPage.parse_price s = JS.parseFloat (digits_and_dots s).
Proof. unfold CartPage.parse_price. now rewrite strip_digits_and_dots. Qed.

(** X15. The price parser sees digits and dots only: characters that
    are neither (currency signs, spaces, thousands separators, letters,
    a minus sign) can be inserted anywhere in a price text without
    changing the number parsed. *)
Theorem parse_price_ignores_junk (a j b : string)
  (Hjunk : junk j = true) :
  CartPage.parse_price (a ++ j ++ b) = CartPage.parse_price (a ++ b).
Proof.
  rewrite !parse_price_strip, !digits_and_dots_app.
  now rewrite (digits_and_dots_junk j Hjunk).
Qed.

(** ** Prices without a digit *)

Lemma digitless_dots (s : string) :
  digitless s = true -> dots (digits_and_dots s) = true.
Proof.
  induction s as [|c s IH]; [reflexivity|].
  cbn [digitless digits_and_dots]. intros H.
  apply andb_true_iff in H as [Hc Hs]. apply negb_true_iff in Hc.
  rewrite Hc. cbn [orb].
  destruct (Ascii.eqb c ".") eqn:E; [|now apply IH].
  cbn [dots]. rewrite E. now apply IH.
Qed.

Lemma scan_digits_dots (t : string) (acc : Z) (n : nat) :
  dots t = true -> JS.scan_digits t acc n = (acc, n, t).
Proof.
  destruct t as [|c t]; [reflexivity|]. cbn [dots]. intros H.
  apply andb_true_iff in H as [Hc _]. apply Ascii.eqb_eq in Hc. now subst c.
Qed.

(** A text of dots only holds no number. *)
Lemma parseFloat_dots (t : string) : dots t = true -> JS.parseFloat t = nan.
Proof.
  destruct t as [|c t]; [reflexivity|]. cbn [dots]. intros H.
  apply andb_true_iff in H as [Hc Ht]. apply Ascii.eqb_eq in Hc. subst c.
  unfold JS.parseFloat.
  change (JS.trimStart (String "." t)) with (String "." t).
  cbn -[JS.scan_digits JS.scan_exponent JS.round_ratio].
  rewrite (scan_digits_dots (String "." t) 0 0)
    by (cbn [dots]; now rewrite Ht).
  now rewrite (scan_digits_dots t 0 0 Ht).
Qed.

Lemma parse_price_digitless (s : string) :
  digitless s = true -> CartPage.parse_price s = nan.
Proof.
  intros H. rewrite parse_price_strip.
  apply parseFloat_dots. now apply digitless_dots.
Qed.

(** ** Not-a-number in binary64 arithmetic *)

Lemma Prim2SF_nan (x : float) : Prim2SF x = S754_nan -> x = nan.
Proof.
  intros H. rewrite <- (SF2Prim_Prim2SF x). now rewrite H.
Qed.

Lemma add_nan_r (x : float) : (x + nan)%float = nan.
Proof.
  apply Prim2SF_nan. rewrite add_spec.
  change (Prim2SF nan) with S754_nan.
  unfold SF64add, SFadd. now destruct (Prim2SF x).
Qed.

Lemma add_nan_l (x : float) : (nan + x)%float = nan.
Proof.
  apply Prim2SF_nan. rewrite add_spec.
  change (Prim2SF nan) with S754_nan. reflexivity.
Qed.

Lemma sub_nan_l (x : float) : (nan - x)%float = nan.
Proof.
  apply Prim2SF_nan. rewrite sub_spec.
  change (Prim2SF nan) with S754_nan. reflexivity.
Qed.

Lemma running_sum_nan (xs : list JS.number) : running_sum nan xs = nan.
Proof.
  induction xs as [|x xs IH]; [reflexivity|].
  cbn [running_sum]. now rewrite add_nan_l.
Qed.

Lemma running_sum_poisoned (xs : list JS.number) (acc : JS.number) :
  In nan xs -> running_sum acc xs = nan.
Proof.
  revert acc; induction xs as [|x xs IH]; intros acc; [intros []|].
  intros [->|Hin]; cbn [running_sum].
  - rewrite add_nan_r. apply running_sum_nan.
  - now apply IH.
Qed.

Lemma nan_out_of_tolerance (y : float) :
  PrimFloat.ltb (PrimFloat.abs (nan - y)%float) CartPage.tolerance = false.
Proof. now rewrite sub_nan_l. Qed.

(** X16. One price without any digit spoils the total: if some line of
    the cart has a price text in which no digit occurs,
    [calculateExpectedTotal] returns not-a-number, and
    [verifyTotalPrice] returns [false] whatever total is displayed. *)
Theorem digitless_price_spoils_total (w w1 w2 : World)
  (items : list CartPage.CartItem) (total : string)
  (Hread : CartPage.getCartItems w = (Ok items, w1))
  (Htotal : CartPage.getTotalPrice w1 = (Ok total, w2))
  (Hfree : existsb (fun it => digitless (CartPage.price it)) items = true) :
  CartPage.calculateExpectedTotal w = (Ok nan, w1) /\
  CartPage.verifyTotalPrice w = (Ok false, w2).
Proof.
  assert (Hsum : sum_of_prices items = nan).
  { apply existsb_exists in Hfree as (it & Hin & Hit).
    apply running_sum_poisoned.
    rewrite <- (parse_price_digitless _ Hit), parse_price_strip.
    apply (in_map (fun it => JS.parseFloat
                               (digits_and_dots (CartPage.price it)))).
    exact Hin. }
  assert (Hcalc : CartPage.calculateExpectedTotal w = (Ok nan, w1)).
  { unfold CartPage.calculateExpectedTotal.
    rewrite (bind_ok _ _ _ _ _ Hread). unfold ret.
    rewrite reduce_running_sum. fold (sum_of_prices items).
    now rewrite Hsum. }
  split; [exact Hcalc|].
  unfold CartPage.verifyTotalPrice.
  rewrite (bind_ok _ _ _ _ _ Hcalc).
  unfold bind at 1. rewrite (bind_ok _ _ _ _ _ Htotal).
  unfold ret. now rewrite nan_out_of_tolerance.
Qed.

End PriceParsing.

Lemma parse_price_ignores_junk_witness :
  CartPage.parse_price ("$1" ++ "," ++ "234.50") = 1234.5%float.
Proof.
  rewrite (parse_price_ignores_junk "$1" "," "234.50" eq_refl).
  reflexivity.
Defined.

Lemma digitless_price_spoils_total_witness :
  fst (CartPage.verifyTotalPrice (opened Store.free_item_cart)) = Ok false.
Proof.
  destruct (digitless_price_spoils_total
              (opened Store.free_item_cart)
              (tick 3000 (opened Store.free_item_cart))
              (tick 3000 (opened Store.free_item_cart))
              [ {| CartPage.name := "Samsung galaxy s6";
                   CartPage.price := "360" |};
                {| CartPage.name := "Gift"; CartPage.price := "free" |} ]
              "360" eq_refl eq_refl eq_refl) as [_ H].
  now rewrite H.
Defined.

(* ================================================================== *)
(** * CartPage: when the cart can be read *)
(* ================================================================== *)

Section ReadingRows.

Lemma readable_inv (r : Tr) :
  readable r = true ->
  exists n p, tr_name r = Some n /\ tr_price r = Some p.
Proof.
  unfold readable. destruct (tr_name r) as [n|], (tr_price r) as [p|];
    try discriminate. intros _. now exists n, p.
Qed.

Lemma cells_length_le (f : Tr -> option Element) (rs : list Tr) :
  length (cells f rs) <= length rs.
Proof.
  induction rs as [|r rs IH]; simpl; [lia|].
  destruct (f r); simpl; lia.
Qed.

Lemma cells_length_missing (f : Tr -> option Element) (rs : list Tr) (r : Tr) :
  In r rs -> f r = None -> length (cells f rs) < length rs.
Proof.
  induction rs as [|r' rs IH]; [intros []|].
  intros [->|Hin] Hr; simpl.
  - rewrite Hr. pose proof (cells_length_le f rs). lia.
  - specialize (IH Hin Hr). destruct (f r'); simpl; lia.
Qed.

(** A row that cannot be read leaves one of the two columns short. *)
Lemma unreadable_short_column (rs : list Tr) :
  forallb readable rs = false ->
  Nat.min (length (cells tr_name rs)) (length (cells tr_price rs))
  < length rs.
Proof.
  intros H.
  assert (Hex : exists r, In r rs /\ readable r = false).
  { induction rs as [|r rs IH]; [discriminate|].
    simpl in H. apply andb_false_iff in H as [H|H].
    - exists r. split; [now left|exact H].
    - destruct (IH H) as (r' & Hin & Hr'). exists r'. split; [now right|auto]. }
  destruct Hex as (r & Hin & Hr). unfold readable in Hr.
  pose proof (cells_length_le tr_name rs).
  pose proof (cells_length_le tr_price rs).
  destruct (tr_name r) eqn:En.
  - destruct (tr_price r) eqn:Ep; [discriminate|].
    pose proof (cells_length_missing tr_price rs r Hin Ep). lia.
  - pose proof (cells_length_missing tr_name rs r Hin En). lia.
Qed.

Lemma for_loop_readable (w : World) (suf pre : list Tr)
  (acc : list CartPage.CartItem) :
  rows (page w) = (pre ++ suf)%list ->
  forallb readable (pre ++ suf)%list = true ->
  for_loop (length suf) (length pre)
    (fun i items =>
       name_ <- (t <- textContent (nth CartPage.cartItemNames i) ;;
                 ret (JS.or_empty t)) ;;
       price_ <- (t <- textContent (nth CartPage.cartItemPrices i) ;;
                  ret (JS.or_empty t)) ;;
       ret (items ++ [ {| CartPage.name := JS.trim name_;
                          CartPage.price := JS.trim price_ |} ])%list)
    acc w
  = (Ok (acc ++ map line_of suf)%list, w).
Proof.
  revert pre acc; induction suf as [|r suf IH]; intros pre acc Hrows Hall.
  - simpl. now rewrite app_nil_r.
  - assert (Hpre : forallb readable pre = true /\ readable r = true).
    { rewrite forallb_app in Hall. simpl in Hall.
      apply andb_true_iff in Hall as [H1 H2].
      apply andb_true_iff in H2 as [H2 _]. now split. }
    destruct Hpre as [Hpre Hr].
    destruct (readable_inv r Hr) as (n & p & Hn & Hp).
    assert (Hnames : forallb (fun r' => match tr_name r' with
                                        | Some _ => true | None => false
                                        end) pre = true).
    { rewrite forallb_forall in *. intros r' Hr'.
      destruct (readable_inv r' (Hpre r' Hr')) as (? & ? & -> & _).
      reflexivity. }
    assert (Hprices : forallb (fun r' => match tr_price r' with
                                         | Some _ => true | None => false
                                         end) pre = true).
    { rewrite forallb_forall in *. intros r' Hr'.
      destruct (readable_inv r' (Hpre r' Hr')) as (? & ? & _ & ->).
      reflexivity. }
    cbn [for_loop length].
    unfold bind at 1. unfold bind at 1. unfold bind at 1.
    unfold textContent at 1. unfold bind at 1, attached at 1, resolve.
    rewrite locate_names, Hrows.
    rewrite (cells_nth tr_name pre suf r n Hnames Hn).
    cbn [ret]. unfold bind at 1. unfold bind at 1.
    unfold textContent at 1. unfold bind at 1, attached at 1, resolve.
    rewrite locate_prices, Hrows.
    rewrite (cells_nth tr_price pre suf r p Hprices Hp).
    cbn [ret].
    replace (S (length pre)) with (length (pre ++ [r])%list)
      by (rewrite length_app; simpl; lia).
    rewrite IH.
    + f_equal. f_equal. rewrite <- app_assoc. simpl.
      unfold line_of, cell_text. now rewrite Hn, Hp.
    + now rewrite <- app_assoc.
    + now rewrite <- app_assoc.
Qed.

(** The loop of [getCartItems] on a table with a short column: it
    reaches the first index the shorter column lacks and times out
    there. *)
Lemma for_loop_short_column (w : World) (n : nat) :
  forall (i : nat) (acc : list CartPage.CartItem),
    i <= Nat.min (length (cells tr_name (rows (page w))))
           (length (cells tr_price (rows (page w)))) ->
    Nat.min (length (cells tr_name (rows (page w))))
      (length (cells tr_price (rows (page w)))) < i + n ->
    exists sel,
      for_loop n i
        (fun i items =>
           name_ <- (t <- textContent (nth CartPage.cartItemNames i) ;;
                     ret (JS.or_empty t)) ;;
           price_ <- (t <- textContent (nth CartPage.cartItemPrices i) ;;
                      ret (JS.or_empty t)) ;;
           ret (items ++ [ {| CartPage.name := JS.trim name_;
                              CartPage.price := JS.trim price_ |} ])%list)
        acc w
      = (Throw (TimeoutError sel), tick actionTimeout w).
Proof.
  induction n as [|n IH]; intros i acc Hle Hlt; [lia|].
  cbn [for_loop].
  unfold bind at 1. unfold bind at 1. unfold bind at 1.
  unfold textContent at 1. unfold bind at 1, attached at 1, resolve.
  rewrite locate_names.
  destruct (nth_error (cells tr_name (rows (page w))) i) as [en|] eqn:En.
  - cbn [ret selector_of]. unfold bind at 1. unfold bind at 1.
    unfold textContent at 1. unfold bind at 1, attached at 1, resolve.
    rewrite locate_prices.
    destruct (nth_error (cells tr_price (rows (page w))) i) as [ep|] eqn:Ep.
    + cbn [ret]. apply IH; [|lia].
      assert (i < length (cells tr_name (rows (page w))))
        by (apply nth_error_Some; congruence).
      assert (i < length (cells tr_price (rows (page w))))
        by (apply nth_error_Some; congruence).
      lia.
    + now exists CartPage.cartItemPrices.
  - now exists CartPage.cartItemNames.
Qed.

Lemma getCartItems_readable (w : World) :
  shows (page w) "#tbodyid" = true ->
  forallb readable (rows (page w)) = true ->
  CartPage.getCartItems w = (Ok (map line_of (rows (page w))), tick 3000 w).
Proof.
  unfold shows. intros Hbody Hall.
  unfold CartPage.getCartItems, bind at 1, waitForSelector.
  rewrite Hbody. unfold bind at 1, waitForTimeout.
  unfold bind at 1, count. cbn [page tick].
  rewrite locate_rows, length_map.
  apply (for_loop_readable (tick 3000 w) (rows (page w)) [] []);
    [reflexivity|exact Hall].
Qed.

Lemma getCartItems_unreadable (w : World) :
  shows (page w) "#tbodyid" = true ->
  forallb readable (rows (page w)) = false ->
  exists sel,
    CartPage.getCartItems w
    = (Throw (TimeoutError sel), tick actionTimeout (tick 3000 w)).
Proof.
  unfold shows. intros Hbody Hbad.
  unfold CartPage.getCartItems, bind at 1, waitForSelector.
  rewrite Hbody. unfold bind at 1, waitForTimeout.
  unfold bind at 1, count. cbn [page tick].
  rewrite locate_rows, length_map.
  apply (for_loop_short_column (tick 3000 w)); cbn [page tick]; [lia|].
  now apply unreadable_short_column.
Qed.

(** Whatever [getCartItems] returns was read off the rows. *)
Lemma getCartItems_ok_inv (w w1 : World) (items : list CartPage.CartItem) :
  CartPage.getCartItems w = (Ok items, w1) ->
  items = map line_of (rows (page w)).
Proof.
  intros H.
  destruct (shows (page w) "#tbodyid") eqn:Hbody.
  - destruct (forallb readable (rows (page w))) eqn:Hall.
    + rewrite (getCartItems_readable w Hbody Hall) in H.
      now injection H as <-.
    + destruct (getCartItems_unreadable w Hbody Hall) as [sel Hsel].
      rewrite Hsel in H. discriminate.
  - rewrite (getCartItems_no_body w Hbody) in H. discriminate.
Qed.

(** X17. [getCartItems] returns the lines of the cart, one per row and
    in row order, exactly when the table body is on display and every
    row has a name cell and a price cell.  Otherwise it throws a
    timeout, on [#tbodyid] or on the column that is short of a cell:
    it never returns a shortened list or a line pieced together from
    two rows. *)
Theorem getCartItems_all_or_nothing (w : World) :
  (shows (page w) "#tbodyid" = false ->
   CartPage.getCartItems w
   = (Throw (TimeoutError "#tbodyid"), tick 10000 w)) /\
  (shows (page w) "#tbodyid" = true ->
   forallb readable (rows (page w)) = true ->
   CartPage.getCartItems w
   = (Ok (map line_of (rows (page w))), tick 3000 w)) /\
  (shows (page w) "#tbodyid" = true ->
   forallb readable (rows (page w)) = false ->
   exists sel,
     CartPage.getCartItems w
     = (Throw (TimeoutError sel), tick actionTimeout (tick 3000 w))) /\
  (forall items w1,
     CartPage.getCartItems w = (Ok items, w1) ->
     shows (page w) "#tbodyid" = true /\
     forallb readable (rows (page w)) = true /\
     items = map line_of (rows (page w))).
Proof.
  split; [apply getCartItems_no_body|].
  split; [apply getCartItems_readable|].
  split; [apply getCartItems_unreadable|].
  intros items w1 H.
  destruct (shows (page w) "#tbodyid") eqn:Hbody.
  - destruct (forallb readable (rows (page w))) eqn:Hall.
    + split; [reflexivity|]. split; [reflexivity|].
      exact (getCartItems_ok_inv w w1 items H).
    + destruct (getCartItems_unreadable w Hbody Hall) as [sel Hsel].
      rewrite Hsel in H. discriminate.
  - rewrite (getCartItems_no_body w Hbody) in H. discriminate.
Qed.

End ReadingRows.

Lemma getCartItems_all_or_nothing_witness :
  exists sel,
    CartPage.getCartItems
      (opened (Shop.cart_page "360"
                 [ Shop.placeholder_row;
                   Shop.cart_row "Samsung galaxy s6" "360" ]))
    = (Throw (TimeoutError sel),
       tick actionTimeout
         (tick 3000
            (opened (Shop.cart_page "360"
                       [ Shop.placeholder_row;
                         Shop.cart_row "Samsung galaxy s6" "360" ])))).
Proof.
  destruct (getCartItems_all_or_nothing
              (opened (Shop.cart_page "360"
                         [ Shop.placeholder_row;
                           Shop.cart_row "Samsung galaxy s6" "360" ])))
    as (_ & _ & H & _).
  exact (H eq_refl eq_refl).
Defined.

(* ================================================================== *)
(** * ProductPage: the price text *)
(* ================================================================== *)

Section ProductPrice.

(** X18. With the price container on display, [getProductPrice] returns
    its text without the first "*includes tax" note and trimmed: a text
    made of [pre], the note and [post], with no asterisk in [pre], is
    returned as [pre ++ post] trimmed; a text without any asterisk is
    returned trimmed and otherwise unchanged. *)
Theorem getProductPrice_strips_tax_note (w : World)
  (Hshown : uniquely_shows (page w) ProductPage.productPrice = true) :
  (forall pre post,
     free_of "*" pre = true ->
     text_of (page w) ProductPage.productPrice
     = pre ++ ("*includes tax" ++ post) ->
     ProductPage.getProductPrice w = (Ok (JS.trim (pre ++ post)), w)) /\
  (free_of "*" (text_of (page w) ProductPage.productPrice) = true ->
   ProductPage.getProductPrice w
   = (Ok (JS.trim (text_of (page w) ProductPage.productPrice)), w)).
Proof.
  assert (Hrun : ProductPage.getProductPrice w
                 = (Ok (JS.trim
                          (JS.remove_first
                             (text_of (page w) ProductPage.productPrice)
                             "*includes tax")), w)).
  { unfold ProductPage.getProductPrice.
    rewrite expect_toBeVisible_bind by exact Hshown.
    unfold bind at 1. now rewrite read_text_unique. }
  split.
  - intros pre post Hpre Htext. rewrite Hrun, Htext.
    now rewrite (remove_first_skip "*" "includes tax" pre post Hpre).
  - intros Hfree. rewrite Hrun.
    now rewrite (remove_first_absent "*" "includes tax" _ Hfree).
Qed.

End ProductPrice.

Lemma getProductPrice_strips_tax_note_witness :
  ProductPage.getProductPrice (opened Store.product_page)
  = (Ok "$360", opened Store.product_page).
Proof.
  destruct (getProductPrice_strips_tax_note (opened Store.product_page)
              eq_refl) as [H _].
  exact (H "$360 " EmptyString eq_refl eq_refl).
Defined.

(* ================================================================== *)
(** * The suite: cleaning up the session *)
(* ================================================================== *)

Section CleanUp.

Variable app : App.

Lemma observes_expect_toBeHidden (l : Locator) :
  observes (expect_toBeHidden l)
    (fun p => match resolve l p with
              | Ok o => if is_visible o
                        then Throw (ExpectError (selector_of l))
                        else Ok tt
              | Throw e => Throw e
              end).
Proof.
  intros w; unfold expect_toBeHidden.
  destruct (resolve l (page w)) as [o|e].
  - destruct (is_visible o).
    + now exists expectTimeout.
    + exists 0%N. now rewrite tick_0.
  - exists 0%N. now rewrite tick_0.
Qed.

(** Whatever [logout] does, it sends at most one click, on the logout
    button. *)
Lemma logout_sends_at_most_one_click (w : World) :
  log (snd (AuthenticationPage.logout app w)) = log w \/
  log (snd (AuthenticationPage.logout app w))
  = (log w ++ [Click AuthenticationPage.logoutButton 0])%list.
Proof.
  unfold AuthenticationPage.logout.
  destruct (uniquely_shows (page w) AuthenticationPage.logoutButton)
    eqn:Hbutton.
  - rewrite expect_toBeVisible_bind by exact Hbutton.
    destruct (app AuthenticationPage.logoutButton 0 (page w))
      as [p' d] eqn:Happ.
    destruct (click_unique app w _ p' d Hbutton Happ)
      as (w1 & Hclick & _ & Hlog).
    rewrite (bind_ok _ _ _ _ _ Hclick).
    assert (Hrest : observes
              (bind (expect_toBeHidden
                       (locator AuthenticationPage.welcomeMessage))
                 (fun _ => expect_toBeVisible
                             (locator AuthenticationPage.loginLink)
                             expectTimeout))
              (fun p =>
                 match
                   match resolve (locator AuthenticationPage.welcomeMessage)
                           p with
                   | Ok o => if is_visible o
                             then Throw (ExpectError
                                           AuthenticationPage.welcomeMessage)
                             else Ok tt
                   | Throw e => Throw e
                   end
                 with
                 | Ok _ =>
                     match resolve (locator AuthenticationPage.loginLink) p
                     with
                     | Ok o => if is_visible o then Ok tt
                               else Throw (ExpectError
                                             AuthenticationPage.loginLink)
                     | Throw e => Throw e
                     end
                 | Throw e => Throw e
                 end)).
    { apply (observes_bind _ _ _ (fun _ => _)).
      - apply observes_expect_toBeHidden.
      - intros _. apply observes_expect_toBeVisible. }
    destruct (Hrest w1) as [dt ->]. right. exact Hlog.
  - destruct (expect_toBeVisible_fails w _ expectTimeout Hbutton)
      as (e & dt & Hfail).
    rewrite (bind_fails _ _ _ _ _ Hfail). now left.
Qed.

(** X19. The clean-up that closes every test never fails: whatever the
    page shows and however the application reacts, it returns normally.
    It sends nothing to the browser when no welcome message is on
    display, and at most one click, on the logout button, when one
    is. *)
Theorem afterEach_logout_never_fails (w : World) :
  exists w',
    Suite.afterEach_logout app w = (Ok tt, w') /\
    (log w' = log w \/
     log w' = (log w ++ [Click AuthenticationPage.logoutButton 0])%list) /\
    (uniquely_shows (page w) AuthenticationPage.welcomeMessage = false ->
     page w' = page w /\ log w' = log w).
Proof.
  unfold Suite.afterEach_logout, try_catch, bind.
  destruct (uniquely_shows (page w) AuthenticationPage.welcomeMessage)
    eqn:Hwelcome.
  - rewrite (isLoggedIn_shown w Hwelcome).
    pose proof (logout_sends_at_most_one_click w) as Hlog.
    destruct (AuthenticationPage.logout app w) as [[[]|e] w1];
      cbn [snd] in Hlog; exists w1; (split; [reflexivity|]);
      (split; [exact Hlog|discriminate]).
  - destruct (isLoggedIn_not_shown w Hwelcome) as [dt ->].
    exists (tick dt w). split; [reflexivity|].
    split; [now left|]. intros _. now split.
Qed.

End CleanUp.

Lemma afterEach_logout_never_fails_witness :
  exists w',
    Suite.afterEach_logout (Shop.shop []) (opened Shop.logged_in_page)
    = (Ok tt, w') /\
    log w' = [Click AuthenticationPage.logoutButton 0].
Proof.
  destruct (afterEach_logout_never_fails (Shop.shop [])
              (opened Shop.logged_in_page)) as (w' & Hrun & _ & _).
  exists w'. split; [exact Hrun|].
  apply (f_equal snd) in Hrun. cbn [snd] in Hrun. now rewrite <- Hrun.
Defined.

(* ================================================================== *)
(** * AuthenticationPage: after logging out *)
(* ================================================================== *)

Section AfterLogout.

Variable app : App.

Lemma hidden_not_uniquely_shown (p : Page) (sel : string) :
  hidden_or_absent p sel = true -> uniquely_shows p sel = false.
Proof.
  unfold hidden_or_absent, uniquely_shows, resolve.
  destruct (locate sel p) as [|e [|e' l]]; try reflexivity.
  simpl. now destruct (el_visible e).
Qed.

(** What a [logout] that returned normally has established. *)
Lemma logout_ok_inv (w w' : World) :
  AuthenticationPage.logout app w = (Ok tt, w') ->
  hidden_or_absent (page w') AuthenticationPage.welcomeMessage = true /\
  uniquely_shows (page w') AuthenticationPage.loginLink = true /\
  log w' = (log w ++ [Click AuthenticationPage.logoutButton 0])%list.
Proof.
  unfold AuthenticationPage.logout. intros H.
  destruct (uniquely_shows (page w) AuthenticationPage.logoutButton)
    eqn:Hbutton.
  - rewrite expect_toBeVisible_bind in H by exact Hbutton.
    destruct (app AuthenticationPage.logoutButton 0 (page w))
      as [p' d] eqn:Happ.
    destruct (click_unique app w _ p' d Hbutton Happ)
      as (w1 & Hclick & _ & Hlog).
    rewrite (bind_ok _ _ _ _ _ Hclick) in H.
    destruct (expect_toBeHidden_run w1 AuthenticationPage.welcomeMessage)
      as [Hhid Hvis].
    destruct (hidden_or_absent (page w1) AuthenticationPage.welcomeMessage)
      eqn:Hw.
    + rewrite (bind_ok _ _ _ _ _ (Hhid eq_refl)) in H.
      destruct (uniquely_shows (page w1) AuthenticationPage.loginLink)
        eqn:Hl.
      * rewrite (expect_toBeVisible_unique w1 _ _ Hl) in H.
        injection H as <-. auto.
      * destruct (expect_toBeVisible_fails w1 _ expectTimeout Hl)
          as (e & dt & Hfail).
        rewrite Hfail in H. discriminate.
    + destruct (Hvis eq_refl) as (e & dt & Hfail).
      rewrite (bind_fails _ _ _ _ _ Hfail) in H. discriminate.
  - destruct (expect_toBeVisible_fails w _ expectTimeout Hbutton)
      as (e & dt & Hfail).
    rewrite (bind_fails _ _ _ _ _ Hfail) in H. discriminate.
Qed.

(** X20. After a [logout] that returned normally, exactly one click was
    sent, [isLoggedIn] answers [false] and [getLoggedInUsername] the
    empty string; [verifyLoggedOut] then passes exactly when the logout
    button is no longer on display, which [logout] itself does not
    check. *)
Theorem logout_then_verifyLoggedOut (w w' : World)
  (Hlogout : AuthenticationPage.logout app w = (Ok tt, w')) :
  log w' = (log w ++ [Click AuthenticationPage.logoutButton 0])%list /\
  fst (AuthenticationPage.isLoggedIn w') = Ok false /\
  fst (AuthenticationPage.getLoggedInUsername w') = Ok EmptyString /\
  (fst (AuthenticationPage.verifyLoggedOut w') = Ok tt <->
   hidden_or_absent (page w') AuthenticationPage.logoutButton = true).
Proof.
  destruct (logout_ok_inv w w' Hlogout) as (Hwelcome & Hlink & Hlog).
  pose proof (hidden_not_uniquely_shown _ _ Hwelcome) as Hno.
  split; [exact Hlog|]. split; [|split].
  - destruct (isLoggedIn_not_shown w' Hno) as [dt ->]. reflexivity.
  - destruct (getLoggedInUsername_logged_out w' Hno) as (w2 & -> & _).
    reflexivity.
  - unfold AuthenticationPage.verifyLoggedOut.
    destruct (expect_toBeHidden_run w' AuthenticationPage.welcomeMessage)
      as [Hhid _].
    rewrite (bind_ok _ _ _ _ _ (Hhid Hwelcome)).
    destruct (expect_toBeHidden_run w' AuthenticationPage.logoutButton)
      as [Hhid' Hvis'].
    destruct (hidden_or_absent (page w') AuthenticationPage.logoutButton).
    + rewrite (bind_ok _ _ _ _ _ (Hhid' eq_refl)).
      rewrite (expect_toBeVisible_unique w' _ _ Hlink). tauto.
    + destruct (Hvis' eq_refl) as (e & dt & Hfail).
      rewrite (bind_fails _ _ _ _ _ Hfail). cbn [fst].
      split; discriminate.
Qed.

End AfterLogout.

Lemma logout_then_verifyLoggedOut_witness :
  fst (AuthenticationPage.verifyLoggedOut
         (snd (AuthenticationPage.logout (Shop.shop [])
                 (opened Shop.logged_in_page)))) = Ok tt.
Proof.
  apply (logout_then_verifyLoggedOut (Shop.shop [])
           (opened Shop.logged_in_page)
           (snd (AuthenticationPage.logout (Shop.shop [])
                   (opened Shop.logged_in_page))) eq_refl).
  reflexivity.
Defined.

(* ================================================================== *)
(** * ContactPage: nothing to fill *)
(* ================================================================== *)

Section NothingToFill.

Variable app : App.

Lemma fill_if_given_nothing (sel : string) (o : option string) (w : World) :
  JS.or_empty o = EmptyString ->
  ContactPage.fill_if_given sel o w = (Ok tt, w).
Proof.
  destruct o as [[|c v]|]; cbn; try reflexivity; discriminate.
Qed.

(** X21. A partial form in which every field is absent or empty is the
    empty form: on every world [sendPartialForm] then does exactly what
    [sendEmptyForm] does, with the same outcome and the same world
    left behind. *)
Theorem sendPartialForm_nothing_given (w : World)
  (d : ContactPage.PartialContactFormData)
  (Hnothing : given d = no_data) :
  ContactPage.sendPartialForm app d w = ContactPage.sendEmptyForm app w.
Proof.
  unfold given, no_data in Hnothing. injection Hnothing as He Hn Hm.
  unfold ContactPage.sendPartialForm, ContactPage.sendEmptyForm.
  unfold bind at 1. symmetry. unfold bind at 1. symmetry.
  destruct (ContactPage.waitForContactModal w) as [[[]|e] w1];
    [|reflexivity].
  unfold bind at 1. symmetry. unfold bind at 1. symmetry.
  destruct (ContactPage.clearForm w1) as [[[]|e] w2]; [|reflexivity].
  rewrite (bind_ok _ _ _ _ _ (fill_if_given_nothing _ _ w2 He)).
  rewrite (bind_ok _ _ _ _ _ (fill_if_given_nothing _ _ w2 Hn)).
  now rewrite (bind_ok _ _ _ _ _ (fill_if_given_nothing _ _ w2 Hm)).
Qed.

End NothingToFill.

Lemma sendPartialForm_nothing_given_witness :
  ContactPage.sendPartialForm (Store.store [])
    {| ContactPage.email_opt := None;
       ContactPage.name_opt := Some EmptyString;
       ContactPage.message_opt := None |}
    (opened Store.contact_modal_page)
  = ContactPage.sendEmptyForm (Store.store [])
      (opened Store.contact_modal_page).
Proof.
  apply (sendPartialForm_nothing_given (Store.store [])
           (opened Store.contact_modal_page)
           {| ContactPage.email_opt := None;
              ContactPage.name_opt := Some EmptyString;
              ContactPage.message_opt := None |}).
  reflexivity.
Defined.

(* ================================================================== *)
(** * Trimmed names *)
(* ================================================================== *)

Section TrimmedNames.

Variable app : App.








End TrimmedNames.

